(** * VibeCue protocol tester: the protocol session engine of [vibecue_v2.js]

    A shallow embedding of the framing functions ([buildPacket],
    [parsePacket]), the MAC connect builder ([sendConnectDevice]), the scan
    registry ([addScanResult], [clearScanResults]) and the receive path
    ([handleNotification], [updateDeviceStatus], [handleEvalStopData]),
    followed by the properties proved about them.

    JavaScript strings are sequences of UTF-16 code units; they are modelled
    as [list Z], each element a code unit in [0, 65535].  Byte buffers
    ([Uint8Array]) are [list Z] with elements in [0, 255]. *)

From Stdlib Require Import String Ascii ZArith List Bool Lia.
Import ListNotations.
Open Scope Z_scope.

(* ====================================================================== *)
(** * JavaScript strings and the String.prototype methods the source uses *)
(* ====================================================================== *)

Module JS.

Definition jsstring := list Z.

(** The code units of an ASCII literal of the source text. *)
Fixpoint lit (s : string) : jsstring :=
  match s with
  | EmptyString => []
  | String a s' => Z.of_N (N_of_ascii a) :: lit s'
  end.
Arguments lit s%_string.

(** [a === b] on strings. *)
Fixpoint streq (a b : jsstring) : bool :=
  match a, b with
  | [], [] => true
  | x :: a', y :: b' => (x =? y) && streq a' b'
  | _, _ => false
  end.

(** [s.startsWith(p)]. *)
Fixpoint startsWith (p s : jsstring) : bool :=
  match p, s with
  | [], _ => true
  | x :: p', y :: s' => (x =? y) && startsWith p' s'
  | _ :: _, [] => false
  end.

(** [s.endsWith(p)]. *)
Definition endsWith (p s : jsstring) : bool :=
  startsWith (rev p) (rev s).

(** [s.includes(p)]: [p] occurs at some index of [s]. *)
Fixpoint includes (p s : jsstring) : bool :=
  startsWith p s ||
  match s with
  | [] => false
  | _ :: s' => includes p s'
  end.

(** [s.substring(n)] for [0 <= n]. *)
Definition substring (n : nat) (s : jsstring) : jsstring := skipn n s.

(** [s.split(sep)] for a separator of one code unit: always at least one
    part, the empty string splits into one empty part. *)
Fixpoint split (sep : Z) (s : jsstring) : list jsstring :=
  match s with
  | [] => [[]]
  | c :: s' =>
      if c =? sep then [] :: split sep s'
      else match split sep s' with
           | p :: ps => (c :: p) :: ps
           | [] => [[c]]
           end
  end.

(** [s.replace(/[:-]/g, '')] is [remove_all] of the two separators; more
    generally the global replacement of a one-unit character class by the
    empty string. *)
Definition remove_all (cls : Z -> bool) (s : jsstring) : jsstring :=
  filter (fun c => negb (cls c)) s.

(** WhiteSpace and LineTerminator code points of ECMA-262, the set that
    [trim] strips and that [parseInt] skips: TAB, LF, VT, FF, CR, SP, NBSP,
    U+1680, U+2000..U+200A, U+2028, U+2029, U+202F, U+205F, U+3000, U+FEFF. *)
Definition isWhiteSpace (c : Z) : bool :=
  ((9 <=? c) && (c <=? 13)) || (c =? 32) || (c =? 160) || (c =? 5760)
  || ((8192 <=? c) && (c <=? 8202)) || (c =? 8232) || (c =? 8233)
  || (c =? 8239) || (c =? 8287) || (c =? 12288) || (c =? 65279).

(** LineTerminator: the code units the regular expression atom [.] refuses. *)
Definition isLineTerminator (c : Z) : bool :=
  (c =? 10) || (c =? 13) || (c =? 8232) || (c =? 8233).

Fixpoint trimStart (s : jsstring) : jsstring :=
  match s with
  | [] => []
  | c :: s' => if isWhiteSpace c then trimStart s' else s
  end.

Definition trimEnd (s : jsstring) : jsstring := rev (trimStart (rev s)).

(** [s.trim()]. *)
Definition trim (s : jsstring) : jsstring := trimEnd (trimStart s).

(** A JavaScript number as far as this program produces one: the result of
    [parseInt], which is NaN, a zero of either sign, an integer that is a
    double, or an infinity.  [Int z] is the double of integral value [z];
    [Int 0] is +0. *)
Inductive jsnumber : Type :=
| NaN : jsnumber
| Int : Z -> jsnumber
| NegZero : jsnumber                        (* -0 *)
| Infinity (negative : bool) : jsnumber.    (* Infinity, -Infinity *)

(** The Number value for an integer [x] other than 0 (ECMA-262 6.1.6.1):
    the double nearest to [x], of two equally near the one with the even
    significand (IEEE 754 roundTiesToEven), an infinity when the rounded
    magnitude reaches 2^1024.  Below 2^53 every integer is a double.  From
    there on a magnitude of [53 + e] bits is cut into its 53 leading bits
    [q] and the [e] bits [r] below them, and [q] is rounded up when [r] is
    more than half of 2^e, or just half and [q] is odd. *)
Definition toDouble (x : Z) : jsnumber :=
  let a := Z.abs x in
  if a <? 9007199254740992 then Int x
  else
    let e := Z.log2 a - 52 in
    let q := Z.shiftr a e in
    let r := a - Z.shiftl q e in
    let half := Z.shiftl 1 (e - 1) in
    let q' := if (half <? r) || ((r =? half) && Z.odd q) then q + 1 else q in
    let m := Z.shiftl q' e in
    if Z.shiftl 1 1024 <=? m then Infinity (x <? 0) else Int (Z.sgn x * m).

(** The value of a digit of the given radix (10 or 16). *)
Definition digitValue (radix c : Z) : option Z :=
  if (48 <=? c) && (c <=? 57) then Some (c - 48)
  else if (radix =? 16) && (97 <=? c) && (c <=? 102) then Some (c - 87)
  else if (radix =? 16) && (65 <=? c) && (c <=? 70) then Some (c - 55)
  else None.

(** The longest prefix of digits, as digit values. *)
Fixpoint digitsPrefix (radix : Z) (s : jsstring) : list Z :=
  match s with
  | [] => []
  | c :: s' =>
      match digitValue radix c with
      | Some d => d :: digitsPrefix radix s'
      | None => []
      end
  end.

Definition mathInt (radix : Z) (ds : list Z) : Z :=
  fold_left (fun acc d => acc * radix + d) ds 0.

(** [parseInt(s)] with no radix argument (ECMA-262 19.2.5): skip leading
    white space, read an optional sign, switch to radix 16 after [0x] or
    [0X], read the longest digit prefix; [NaN] when that prefix is empty,
    a zero with the sign read when the digits are all 0, and otherwise the
    Number value of the signed integer the digits denote.  The integer is
    taken exactly, with every digit counted. *)
Definition parseInt (s : jsstring) : jsnumber :=
  let s0 := trimStart s in
  let '(sign, s1) :=
    match s0 with
    | c :: r => if c =? 45 then (-1, r) else if c =? 43 then (1, r) else (1, s0)
    | [] => (1, s0)
    end in
  let '(radix, s2) :=
    match s1 with
    | a :: b :: r =>
        if (a =? 48) && ((b =? 120) || (b =? 88)) then (16, r) else (10, s1)
    | _ => (10, s1)
    end in
  match digitsPrefix radix s2 with
  | [] => NaN
  | ds =>
      let m := mathInt radix ds in
      if m =? 0 then (if sign =? -1 then NegZero else Int 0)
      else toDouble (sign * m)
  end.

(** [parts[i]] read with a default, the source's
    [parts.length > i ? parts[i] : dflt]. *)
Definition part_or (dflt : jsstring) (parts : list jsstring) (i : nat) : jsstring :=
  nth i parts dflt.

End JS.
Export JS.

(* ====================================================================== *)
(** * TextEncoder and TextDecoder (WHATWG Encoding, UTF-8)                 *)
(* ====================================================================== *)

Module TextCodec.

Definition isHighSurrogate (c : Z) : bool := (55296 <=? c) && (c <=? 56319).
Definition isLowSurrogate (c : Z) : bool := (56320 <=? c) && (c <=? 57343).

Definition REPLACEMENT : Z := 65533.

(** Conversion of a string to scalar values (a USVString): surrogate pairs
    are combined, every unpaired surrogate becomes U+FFFD. *)
Fixpoint to_scalars (s : jsstring) : list Z :=
  match s with
  | [] => []
  | c :: s' =>
      if isHighSurrogate c then
        match s' with
        | d :: s'' =>
            if isLowSurrogate d
            then (65536 + (c - 55296) * 1024 + (d - 56320)) :: to_scalars s''
            else REPLACEMENT :: to_scalars s'
        | [] => [REPLACEMENT]
        end
      else if isLowSurrogate c then REPLACEMENT :: to_scalars s'
      else c :: to_scalars s'
  end.

(** The code units of one scalar value. *)
Definition units_of_scalar (cp : Z) : jsstring :=
  if cp <? 65536 then [cp]
  else [55296 + (cp - 65536) / 1024; 56320 + (cp - 65536) mod 1024].

(** The UTF-8 encoder: one to four bytes per scalar value.  [x / 64] is the
    standard's [x >> 6], [128 + x mod 64] its [0x80 | (x & 0x3F)]. *)
Definition utf8_encode_scalar (cp : Z) : list Z :=
  if cp <=? 127 then [cp]
  else if cp <=? 2047 then [192 + cp / 64; 128 + cp mod 64]
  else if cp <=? 65535 then
    [224 + cp / 4096; 128 + (cp / 64) mod 64; 128 + cp mod 64]
  else
    [240 + cp / 262144; 128 + (cp / 4096) mod 64;
     128 + (cp / 64) mod 64; 128 + cp mod 64].

(** [new TextEncoder().encode(s)]. *)
Definition encode (s : jsstring) : list Z :=
  flat_map utf8_encode_scalar (to_scalars s).

(** The state of the UTF-8 decoder of the Encoding standard. *)
Record DecoderState : Type := mkDecoder {
  codePoint : Z;
  bytesSeen : Z;
  bytesNeeded : Z;
  lowerBoundary : Z;
  upperBoundary : Z
}.

Definition initial : DecoderState := mkDecoder 0 0 0 128 191.

(** The handler on a byte read while no sequence is open: what it emits and
    the next state. *)
Definition leadByte (b : Z) : list Z * DecoderState :=
  if (0 <=? b) && (b <=? 127) then ([b], initial)
  else if (194 <=? b) && (b <=? 223) then
    ([], mkDecoder (b mod 32) 0 1 128 191)
  else if (224 <=? b) && (b <=? 239) then
    ([], mkDecoder (b mod 16) 0 2
           (if b =? 224 then 160 else 128) (if b =? 237 then 159 else 191))
  else if (240 <=? b) && (b <=? 244) then
    ([], mkDecoder (b mod 8) 0 3
           (if b =? 240 then 144 else 128) (if b =? 244 then 143 else 191))
  else ([REPLACEMENT], initial).

(** The decoder run over a buffer, errors replaced by U+FFFD (the default,
    non-fatal mode).  A byte outside the boundaries closes the open sequence
    with U+FFFD and is read again as a lead byte; an open sequence at the
    end of the buffer gives one more U+FFFD. *)
Fixpoint utf8_decode_from (st : DecoderState) (bs : list Z) : list Z :=
  match bs with
  | [] => if bytesNeeded st =? 0 then [] else [REPLACEMENT]
  | b :: bs' =>
      if bytesNeeded st =? 0 then
        let '(out, st') := leadByte b in out ++ utf8_decode_from st' bs'
      else if (lowerBoundary st <=? b) && (b <=? upperBoundary st) then
        let cp := codePoint st * 64 + b mod 64 in
        if bytesSeen st + 1 =? bytesNeeded st
        then cp :: utf8_decode_from initial bs'
        else utf8_decode_from
               (mkDecoder cp (bytesSeen st + 1) (bytesNeeded st) 128 191) bs'
      else
        REPLACEMENT ::
        (let '(out, st') := leadByte b in out ++ utf8_decode_from st' bs')
  end.

(** The byte order mark EF BB BF at the head of the buffer is skipped
    ([ignoreBOM] is false by default). *)
Definition stripBOM (bs : list Z) : list Z :=
  match bs with
  | b0 :: b1 :: b2 :: bs' =>
      if (b0 =? 239) && (b1 =? 187) && (b2 =? 191) then bs' else bs
  | _ => bs
  end.

(** [new TextDecoder().decode(bytes)]. *)
Definition decode (bs : list Z) : jsstring :=
  flat_map units_of_scalar (utf8_decode_from initial (stripBOM bs)).

(** A string TextEncoder encodes without loss: code units in range and no
    unpaired surrogate. *)
Fixpoint wellFormed (s : jsstring) : bool :=
  match s with
  | [] => true
  | c :: s' =>
      if isHighSurrogate c then
        match s' with
        | d :: s'' => isLowSurrogate d && wellFormed s''
        | [] => false
        end
      else (0 <=? c) && (c <=? 65535) && negb (isLowSurrogate c) && wellFormed s'
  end.

(** A Unicode scalar value: a code point that is no surrogate. *)
Definition isScalar (cp : Z) : Prop :=
  0 <= cp <= 1114111 /\ ~ (55296 <= cp <= 57343).

(** What the decoder gives back for the encoding of a well-formed string:
    the string without its first code unit when that is U+FEFF, whose
    encoding is the byte order mark. *)
Definition withoutBOM (s : jsstring) : jsstring :=
  match s with
  | c :: s' => if c =? 65279 then s' else s
  | [] => []
  end.

End TextCodec.

(* ====================================================================== *)
(** * Framer: buildPacket and parsePacket                                  *)
(* ====================================================================== *)

Module Framer.

Definition CRLF : jsstring := [13; 10].

(** What [buildPacket] returns: the packet bytes, or [null] after
    [console.error('Payload too long:', n, 'bytes (max 64)')]. *)
Inductive PacketResult : Type :=
| Packet : list Z -> PacketResult
| PayloadTooLong : nat -> PacketResult.

(** The payload with its terminator: [\r\n] is added unless already there. *)
Definition terminated (payload : jsstring) : jsstring :=
  if endsWith CRLF payload then payload else payload ++ CRLF.

Definition buildPacket (payload : jsstring) : PacketResult :=
  let packet := TextCodec.encode (terminated payload) in
  if (64 <? length packet)%nat then PayloadTooLong (length packet)
  else Packet packet.

(** [parsePacket]: the buffer decoded as text, trimmed. *)
Definition parsePacket (bytes : list Z) : jsstring :=
  trim (TextCodec.decode bytes).

End Framer.

(* ====================================================================== *)
(** * Command builder: sendConnectDevice                                   *)
(* ====================================================================== *)

Module CommandBuilder.

(** What [sendConnectDevice] does with its two input fields: one of the two
    alerts, or the call [sendCommand(cmd)]. *)
Inductive ConnectOutcome : Type :=
| AlertEnterMac : ConnectOutcome       (* alert('Please enter MAC address') *)
| AlertInvalidMac : ConnectOutcome     (* alert('Invalid MAC address. ...') *)
| SendCommand : jsstring -> ConnectOutcome.

(** The class [[:-]] of the separator pattern. *)
Definition isSeparator (c : Z) : bool := (c =? 58) || (c =? 45).

(** The class [[0-9A-F]]. *)
Definition isUpperHex (c : Z) : bool :=
  ((48 <=? c) && (c <=? 57)) || ((65 <=? c) && (c <=? 70)).

(** [/^[0-9A-F]+$/.test(s)]: one or more characters, all of the class. *)
Definition testHex (s : jsstring) : bool :=
  match s with
  | [] => false
  | _ :: _ => forallb isUpperHex s
  end.

(** [toUpperCase] on a code unit of the ASCII range. *)
Definition asciiUpper (c : Z) : Z :=
  if (97 <=? c) && (c <=? 122) then c - 32 else c.

Definition isAscii (c : Z) : Prop := 0 <= c < 128.

(** A character of the class [[0-9A-F]], as a proposition. *)
Definition isHexDigit (c : Z) : Prop := 48 <= c <= 57 \/ 65 <= c <= 70.

Section Connect.

(** [String.prototype.toUpperCase] follows the Unicode case tables, which
    are no part of this program: it is a parameter here. *)
Variable toUpperCase : jsstring -> jsstring.

Definition sendConnectDevice (connMac connLocation : jsstring) : ConnectOutcome :=
  let mac := toUpperCase (trim connMac) in
  let location := connLocation in
  match mac with
  | [] => AlertEnterMac
  | _ :: _ =>
      let cleanMac := remove_all isSeparator mac in
      if negb (length cleanMac =? 12)%nat || negb (testHex cleanMac)
      then AlertInvalidMac
      else SendCommand (lit "DM:CONN:" ++ cleanMac ++ lit ":" ++ location)
  end.

(** The reduction of the MAC field: trimmed, uppercased, separators
    removed (the [cleanMac] of the source). *)
Definition cleanMacOf (rawMac : jsstring) : jsstring :=
  remove_all isSeparator (toUpperCase (trim rawMac)).

(** The MAC field reduces to exactly 12 hexadecimal characters. *)
Definition reducesToMac (rawMac : jsstring) : Prop :=
  length (cleanMacOf rawMac) = 12%nat /\ Forall isHexDigit (cleanMacOf rawMac).

End Connect.

End CommandBuilder.

(* ====================================================================== *)
(** * Scan registry: the global [scanResults]                              *)
(* ====================================================================== *)

Module ScanRegistry.

(** An element [{mac, rssi, name}] of [scanResults]. *)
Record ScanRecord : Type := mkScan {
  mac : jsstring;
  rssi : jsnumber;
  name : jsstring
}.

(** The predicate [r => r.mac === mac] given to [find]. *)
Definition hasMac (m : jsstring) (r : ScanRecord) : bool := streq (mac r) m.

(** [existing.rssi = rssi] on the record [find] returned, which is the first
    one with that mac; the record is updated where it stands in the array. *)
Fixpoint assignRssi (m : jsstring) (v : jsnumber) (rs : list ScanRecord)
  : list ScanRecord :=
  match rs with
  | [] => []
  | r :: rs' =>
      if hasMac m r then mkScan (mac r) v (name r) :: rs'
      else r :: assignRssi m v rs'
  end.

Definition addScanResult (m : jsstring) (v : jsnumber) (n : jsstring)
  (scanResults : list ScanRecord) : list ScanRecord :=
  match find (hasMac m) scanResults with
  | Some _ => assignRssi m v scanResults
  | None => scanResults ++ [mkScan m v n]
  end.

Definition clearScanResults (scanResults : list ScanRecord) : list ScanRecord := [].

(** A sequence of calls of [addScanResult], first to last. *)
Definition addAll (calls : list (jsstring * jsnumber * jsstring))
  (scanResults : list ScanRecord) : list ScanRecord :=
  fold_left (fun rs '(m, v, n) => addScanResult m v n rs) calls scanResults.

End ScanRegistry.

(* ====================================================================== *)
(** * The receive path                                                     *)
(* ====================================================================== *)

Module Session.

Import Framer ScanRegistry.

(** The icon and colour chosen for a [#BLE:RAW:] response. *)
Inductive BleKind : Type :=
| BleOk | BleReady | BleMulti | BleConn | BleDisconn | BleOther.

(** The value of [statusHTML] at the end of [updateDeviceStatus], which is
    written to the [deviceStatus] element: one constructor per template of
    the source, with the values interpolated into it; [StatusEmpty] is the
    initial [''] that no branch replaced.  The event variants of the
    specification name these branches: [StatusScanFound] is its ScanFound,
    [StatusSuccess] its GenericSuccess, [StatusError] its GenericError and
    [StatusOther], the last [else], its Unrecognized. *)
Inductive StatusHTML : Type :=
| StatusEmpty : StatusHTML                              (* '' *)
| StatusBleMaster (kind : BleKind) (rawResp : jsstring) (* 'BLE Master:' *)
| StatusScanFound (name mac : jsstring)                 (* 'Scan: Found name (mac)' *)
| StatusSuccess (message : jsstring)                    (* 'Success:' *)
| StatusDuplicateMac (mac existingLoc : jsstring)       (* 'Duplicate MAC:' *)
| StatusDuplicateLocation (loc existingMac : jsstring)  (* 'Duplicate Location:' *)
| StatusLocationNotAllowed (loc type : jsstring)        (* 'Location Not Allowed:' *)
| StatusTypeFull (type max : jsstring)                  (* 'Type Full:' *)
| StatusNoType                                          (* 'No Type:' *)
| StatusSlotFull (maxSlots : jsstring)                  (* 'Slot Full:' *)
| StatusError (message : jsstring)                      (* 'Error:' *)
| StatusOther (message : jsstring).                     (* the bare message *)

(** An element of [evalDataRows]: the object with [type: 'foot'] or
    [type: 'back']. *)
Inductive EvalRow : Type :=
| FootRow (time : jsstring) (lDist rDist lSpeed rSpeed asymmetry : jsnumber)
| BackRow (time : jsstring) (lTilt rTilt asymmetry : jsnumber).

(** The lines [logReceived] appends to the received log. *)
Inductive LogLine : Type :=
| LogParseFailed                              (* '[ERROR] Failed to parse packet' *)
| LogPayload (timestamp payload : jsstring)   (* `[${timestamp}] ${payload}` *)
| LogEvalAdded                                (* 'EVAL average data added to table' *)
| LogManualStopped.                           (* 'Manual mode stopped (time elapsed)' *)

(** The warnings written to the console. *)
Inductive ConsoleLine : Type :=
| WarnEvalParse (message : jsstring)    (* 'Failed to parse EVAL STOP data:' *)
| WarnEvalFormat (message : jsstring).  (* 'Unknown EVAL STOP data format:' *)

(** The globals and page elements the receive path reads and writes.  The
    scan list and the evaluation table of the page are redrawn from
    [scanResults] and [evalDataRows] after each change and hold nothing of
    their own, so they are not fields here. *)
Record State : Type := mkState {
  evalDataRows : list EvalRow;
  scanResults : list ScanRecord;
  deviceStatus : StatusHTML;
  receivedLog : list LogLine;
  console : list ConsoleLine
}.

Definition setScanResults (rs : list ScanRecord) (st : State) : State :=
  mkState (evalDataRows st) rs (deviceStatus st) (receivedLog st) (console st).

Definition setDeviceStatus (h : StatusHTML) (st : State) : State :=
  mkState (evalDataRows st) (scanResults st) h (receivedLog st) (console st).

Definition pushEvalRow (r : EvalRow) (st : State) : State :=
  mkState (evalDataRows st ++ [r]) (scanResults st) (deviceStatus st)
          (receivedLog st) (console st).

Definition logReceived (l : LogLine) (st : State) : State :=
  mkState (evalDataRows st) (scanResults st) (deviceStatus st)
          (receivedLog st ++ [l]) (console st).

Definition consoleWarn (w : ConsoleLine) (st : State) : State :=
  mkState (evalDataRows st) (scanResults st) (deviceStatus st)
          (receivedLog st) (console st ++ [w]).

Definition BLE_RAW : jsstring := lit "#BLE:RAW:".
Definition SCAN_FOUND : jsstring := lit "#DM:SCAN:FOUND:".
Definition EVAL_STOP_OK : jsstring := lit "#EVAL:STOP:STOP_OK:".
Definition MAN_TIMEOUT : jsstring := lit "#MAN:TIMEOUT".

Definition bleKind (rawResp : jsstring) : BleKind :=
  if streq rawResp (lit "+OK") then BleOk
  else if streq rawResp (lit "+READY") then BleReady
  else if streq rawResp (lit "+MULTI") then BleMulti
  else if startsWith (lit "+CONN") rawResp then BleConn
  else if startsWith (lit "+DISCONN") rawResp then BleDisconn
  else BleOther.

(** [updateDeviceStatus(message)]: the chain of [if ... else if] of the
    source, in its order. *)
Definition updateDeviceStatus (message : jsstring) (st : State) : State :=
  if startsWith BLE_RAW message then
    let rawResp := substring (length BLE_RAW) message in
    setDeviceStatus (StatusBleMaster (bleKind rawResp) rawResp) st
  else if startsWith SCAN_FOUND message then
    let data := substring (length SCAN_FOUND) message in
    let parts := split 44 data in
    if (3 <=? length parts)%nat then
      let mac := nth 0 parts [] in
      let name := nth 1 parts [] in
      let rssi := parseInt (nth 2 parts []) in
      setDeviceStatus (StatusScanFound name mac)
        (setScanResults (addScanResult mac rssi name (scanResults st)) st)
    else setDeviceStatus StatusEmpty st
  else if includes (lit "INIT_OK") message || includes (lit "SCAN_STARTED") message then
    setDeviceStatus (StatusSuccess message)
      (setScanResults (clearScanResults (scanResults st)) st)
  else if includes (lit "DUP_MAC:") message then
    let parts := split 58 message in
    setDeviceStatus
      (StatusDuplicateMac (part_or (lit "unknown") parts 2)
                          (part_or (lit "unknown") parts 3)) st
  else if includes (lit "DUP_LOC:") message then
    let parts := split 58 message in
    setDeviceStatus
      (StatusDuplicateLocation (part_or (lit "unknown") parts 2)
                               (part_or (lit "unknown") parts 3)) st
  else if includes (lit "LOC_NOT_ALLOWED:") message then
    let parts := split 58 message in
    setDeviceStatus
      (StatusLocationNotAllowed (part_or (lit "unknown") parts 2)
                                (part_or (lit "unknown") parts 3)) st
  else if includes (lit "TYPE_FULL:") message then
    let parts := split 58 message in
    setDeviceStatus
      (StatusTypeFull (part_or (lit "?") parts 2) (part_or (lit "?") parts 3)) st
  else if includes (lit "NO_TYPE") message then
    setDeviceStatus StatusNoType st
  else if includes (lit "SLOT_FULL:") message then
    let parts := split 58 message in
    setDeviceStatus (StatusSlotFull (part_or (lit "8") parts 2)) st
  else if startsWith (lit "#ERR") message then
    setDeviceStatus (StatusError message) st
  else if startsWith (lit "#") message then
    setDeviceStatus (StatusSuccess message) st
  else
    setDeviceStatus (StatusOther message) st.

(** The rest of [s] after the prefix [p], when [s] starts with [p]. *)
Fixpoint afterPrefix (p s : jsstring) : option jsstring :=
  match p, s with
  | [], _ => Some s
  | x :: p', y :: s' => if x =? y then afterPrefix p' s' else None
  | _ :: _, [] => None
  end.

(** What the group [(.+)] takes: the longest run of characters that are no
    line terminators. *)
Fixpoint dotPlus (s : jsstring) : jsstring :=
  match s with
  | [] => []
  | c :: s' => if isLineTerminator c then [] else c :: dotPlus s'
  end.

(** [message.match(/#EVAL:STOP:STOP_OK:(.+)/)]: the pattern is tried at each
    index from the left; the result is the capture of the first index where
    the literal is followed by at least one character for [.+], and [None]
    (the source's [null]) when there is no such index. *)
Fixpoint matchEvalStop (message : jsstring) : option jsstring :=
  match message with
  | [] => None
  | _ :: rest =>
      match afterPrefix EVAL_STOP_OK message with
      | Some tail =>
          match dotPlus tail with
          | [] => matchEvalStop rest
          | capture => Some capture
          end
      | None => matchEvalStop rest
      end
  end.

(** [handleEvalStopData(message)]; [timestamp] is the clock reading
    [new Date().toLocaleTimeString()] taken in the function. *)
Definition handleEvalStopData (message timestamp : jsstring) (st : State) : State :=
  match matchEvalStop message with
  | None => consoleWarn (WarnEvalParse message) st
  | Some data =>
      let parts := map (fun s => parseInt (trim s)) (split 44 data) in
      match parts with
      | [p0; p1; p2; p3; p4] =>
          logReceived LogEvalAdded (pushEvalRow (FootRow timestamp p0 p1 p2 p3 p4) st)
      | [p0; p1; p2] =>
          logReceived LogEvalAdded (pushEvalRow (BackRow timestamp p0 p1 p2) st)
      | _ => consoleWarn (WarnEvalFormat message) st
      end
  end.

(** [handleNotification(event)]: [value] is the buffer of
    [event.target.value]; [t1] and [t2] are the clock readings taken in
    [handleNotification] and in [handleEvalStopData]. *)
Definition handleNotification (value : list Z) (t1 t2 : jsstring) (st : State) : State :=
  let payload := parsePacket value in
  match payload with
  | [] => logReceived LogParseFailed st
  | _ :: _ =>
      let st1 := logReceived (LogPayload t1 payload) st in
      let st2 := updateDeviceStatus payload st1 in
      let st3 :=
        if startsWith EVAL_STOP_OK payload
        then handleEvalStopData payload t2 st2 else st2 in
      if startsWith MAN_TIMEOUT payload
      then logReceived LogManualStopped st3 else st3
  end.

(** The state of a freshly loaded page. *)
Definition initialState : State := mkState [] [] StatusEmpty [] [].

(** A run of the page: the notifications received, first to last, each with
    its buffer and its two clock readings. *)
Definition receiveAll (events : list (list Z * jsstring * jsstring)) (st : State)
  : State :=
  fold_left (fun s '(value, t1, t2) => handleNotification value t1 t2 s) events st.

(** ** Vocabulary of the properties *)



(** The line starts with [#DM:SCAN:FOUND:] and has fewer than three
    comma-separated fields after it. *)
Definition scanFoundShort (message : jsstring) : bool :=
  startsWith SCAN_FOUND message
  && (length (split 44 (substring (length SCAN_FOUND) message)) <? 3)%nat.

(** No rule of the table matches: the line does not start with [#] (so with
    none of the prefixes) and holds none of the markers. *)
Definition noRuleMatches (message : jsstring) : bool :=
  negb (startsWith (lit "#") message)
  && negb (includes (lit "INIT_OK") message)
  && negb (includes (lit "SCAN_STARTED") message)
  && negb (includes (lit "DUP_MAC:") message)
  && negb (includes (lit "DUP_LOC:") message)
  && negb (includes (lit "LOC_NOT_ALLOWED:") message)
  && negb (includes (lit "TYPE_FULL:") message)
  && negb (includes (lit "NO_TYPE") message)
  && negb (includes (lit "SLOT_FULL:") message).

End Session.

(* ====================================================================== *)
(** * The send path: sendCommand and the functions that call it            *)
(* ====================================================================== *)

Module Sender.

Import Framer CommandBuilder.

(** [parts.join(sep)]: the parts with the separator between them, the empty
    string for no part. *)
Fixpoint join (sep : jsstring) (parts : list jsstring) : jsstring :=
  match parts with
  | [] => []
  | [p] => p
  | p :: rest => p ++ sep ++ join sep rest
  end.

(** The alerts of the send path, one constructor per message. *)
Inductive Alert : Type :=
| AlertNotConnected                  (* 'Not connected! Please connect to a device first.' *)
| AlertBuildFailed                   (* 'Failed to build packet (payload too long?)' *)
| AlertSendFailed (message : jsstring) (* 'Send failed: ' + error.message *)
| AlertSelectType                    (* 'Please select a device type' *)
| AlertManualFields                  (* frequency, intensity and duration are asked for *)
| AlertManualLocation                (* a location is asked for *)
| AlertMacMissing                    (* 'Please enter MAC address' *)
| AlertMacInvalid                    (* 'Invalid MAC address. ...' *)
| AlertEnterCommand.                 (* 'Please enter a command' *)

(** The lines [logSent] appends to the sent log. *)
Inductive SentLine : Type :=
| SentCommand (timestamp payload : jsstring)  (* `[${timestamp}] ${payload}` *)
| SentPacket (packet : list Z)                (* '  -> Packet: ' + arrayToHex(packet) *)
| SentError (message : jsstring)              (* '[ERROR] Send failed: ' + error.message *)
| SentDisconnected.                           (* 'Disconnected' *)

(** The globals of the link and what the send path leaves behind:
    [hasWriteCharacteristic] says that [writeCharacteristic] is not null,
    [writeCalls] lists the packets given to [writeCharacteristic.writeValue],
    first to last. *)
Record Link : Type := mkLink {
  isConnected : bool;
  hasWriteCharacteristic : bool;
  writeCalls : list (list Z);
  sentLog : list SentLine;
  alerts : list Alert
}.

Definition alert (a : Alert) (l : Link) : Link :=
  mkLink (isConnected l) (hasWriteCharacteristic l) (writeCalls l) (sentLog l)
         (alerts l ++ [a]).

Definition logSent (s : SentLine) (l : Link) : Link :=
  mkLink (isConnected l) (hasWriteCharacteristic l) (writeCalls l)
         (sentLog l ++ [s]) (alerts l).

Definition writeValue (packet : list Z) (l : Link) : Link :=
  mkLink (isConnected l) (hasWriteCharacteristic l) (writeCalls l ++ [packet])
         (sentLog l) (alerts l).

(** [sendCommand(command)].  [timestamp] is the clock reading taken after the
    write; [writeError] is the message of the error [writeValue] rejects
    with, [None] when it resolves. *)
Definition sendCommand (command timestamp : jsstring) (writeError : option jsstring)
  (l : Link) : Link :=
  if negb (isConnected l) || negb (hasWriteCharacteristic l)
  then alert AlertNotConnected l
  else
    let payload := lit "$" ++ command in
    match buildPacket payload with
    | PayloadTooLong _ => alert AlertBuildFailed l
    | Packet packet =>
        let l1 := writeValue packet l in
        match writeError with
        | Some message => logSent (SentError message) (alert (AlertSendFailed message) l1)
        | None => logSent (SentPacket packet) (logSent (SentCommand timestamp payload) l1)
        end
    end.

(** [disconnectBluetooth()]: the link globals are reset and the line is
    logged. *)
Definition disconnectBluetooth (l : Link) : Link :=
  logSent SentDisconnected
    (mkLink false false (writeCalls l) (sentLog l) (alerts l)).

(** [sendDeviceType()]; [type] is the value of the checked radio button,
    [None] when none is checked. *)
Definition sendDeviceType (type : option jsstring) (timestamp : jsstring)
  (writeError : option jsstring) (l : Link) : Link :=
  match type with
  | None | Some [] => alert AlertSelectType l
  | Some t => sendCommand (lit "DM:TYPE:" ++ t) timestamp writeError l
  end.

(** The command of [sendManualStart]:
    [`MAN:START:${freq},${intensity},${duration},${locations}`]. *)
Definition manualStartCommand (freq intensity duration locations : jsstring) : jsstring :=
  lit "MAN:START:" ++ freq ++ lit "," ++ intensity ++ lit "," ++ duration
  ++ lit "," ++ locations.

(** [sendManualStart()]; [checked] lists the values of the checked location
    boxes in document order. *)
Definition sendManualStart (freq intensity duration : jsstring) (checked : list jsstring)
  (timestamp : jsstring) (writeError : option jsstring) (l : Link) : Link :=
  match freq, intensity, duration with
  | _ :: _, _ :: _, _ :: _ =>
      let locations := join (lit ",") checked in
      match locations with
      | [] => alert AlertManualLocation l
      | _ :: _ =>
          sendCommand (manualStartCommand freq intensity duration locations)
            timestamp writeError l
      end
  | _, _, _ => alert AlertManualFields l
  end.

(** [sendCustomCommand()]; [customCmd] is the value of the input field. *)
Definition sendCustomCommand (customCmd timestamp : jsstring)
  (writeError : option jsstring) (l : Link) : Link :=
  match trim customCmd with
  | [] => alert AlertEnterCommand l
  | cmd => sendCommand cmd timestamp writeError l
  end.





(** A frame of the wire format: at most 64 bytes, [$] first, CR LF last. *)
Definition wireFrame (packet : list Z) : Prop :=
  (length packet <= 64)%nat /\ exists body, packet = 36 :: body ++ [13; 10].

Section WithToUpperCase.

Variable toUpperCase : jsstring -> jsstring.

(** [sendConnectDevice()] with the call of [sendCommand] carried out. *)
Definition connectDevice (connMac connLocation timestamp : jsstring)
  (writeError : option jsstring) (l : Link) : Link :=
  match sendConnectDevice toUpperCase connMac connLocation with
  | AlertEnterMac => alert AlertMacMissing l
  | AlertInvalidMac => alert AlertMacInvalid l
  | SendCommand cmd => sendCommand cmd timestamp writeError l
  end.


(** A call of one of the functions of the send path, as the page makes them,
    with the clock reading and the outcome of the write where there is one. *)
Inductive Action : Type :=
| DoDeviceType (type : option jsstring) (timestamp : jsstring) (writeError : option jsstring)
| DoManualStart (freq intensity duration : jsstring) (checked : list jsstring)
    (timestamp : jsstring) (writeError : option jsstring)
| DoConnectDevice (connMac connLocation timestamp : jsstring) (writeError : option jsstring)
| DoCustomCommand (customCmd timestamp : jsstring) (writeError : option jsstring)
| DoDisconnect.

Definition perform (a : Action) (l : Link) : Link :=
  match a with
  | DoDeviceType type t e => sendDeviceType type t e l
  | DoManualStart f i d checked t e => sendManualStart f i d checked t e l
  | DoConnectDevice m loc t e => connectDevice m loc t e l
  | DoCustomCommand c t e => sendCustomCommand c t e l
  | DoDisconnect => disconnectBluetooth l
  end.

Definition performAll (actions : list Action) (l : Link) : Link :=
  fold_left (fun s a => perform a s) actions l.

End WithToUpperCase.

End Sender.

(* ====================================================================== *)
(** * The scan list and the evaluation table of the page                   *)
(* ====================================================================== *)

Module Display.

Import ScanRegistry Session.

(** [a > z] for a number read by [parseInt] and an integer [z]: false on
    [NaN]. *)
Definition greater (a : jsnumber) (z : Z) : bool :=
  match a with
  | Int v => z <? v
  | NegZero => z <? 0
  | Infinity negative => negb negative
  | NaN => false
  end.

(** The colour of the rssi in [updateScanResultsDisplay]. *)
Inductive SignalColor : Type :=
| Green    (* '#27ae60' *)
| Orange   (* '#f39c12' *)
| Red.     (* '#e74c3c' *)

Definition signalColor (rssi : jsnumber) : SignalColor :=
  if greater rssi (-70) then Green
  else if greater rssi (-85) then Orange
  else Red.

(** The colours from weakest to strongest. *)
Definition colorRank (c : SignalColor) : Z :=
  match c with
  | Red => 0
  | Orange => 1
  | Green => 2
  end.

(** [evalDataRows.slice(-n)]: the last [n] elements, all of them when there
    are fewer. *)
Definition sliceLast {A : Type} (n : nat) (l : list A) : list A :=
  skipn (length l - n) l.

(** The text of a table cell: [`${row.field}`]. *)
Inductive Cell : Type :=
| CellText (s : jsstring)
| CellNumber (n : jsnumber)
| CellUndefined.

(** The fields of a row object, [undefined] where the object has none. *)
Definition rowTime (r : EvalRow) : Cell :=
  match r with FootRow t _ _ _ _ _ | BackRow t _ _ _ => CellText t end.
Definition rowLDist (r : EvalRow) : Cell :=
  match r with FootRow _ v _ _ _ _ => CellNumber v | BackRow _ _ _ _ => CellUndefined end.
Definition rowRDist (r : EvalRow) : Cell :=
  match r with FootRow _ _ v _ _ _ => CellNumber v | BackRow _ _ _ _ => CellUndefined end.
Definition rowLSpeed (r : EvalRow) : Cell :=
  match r with FootRow _ _ _ v _ _ => CellNumber v | BackRow _ _ _ _ => CellUndefined end.
Definition rowRSpeed (r : EvalRow) : Cell :=
  match r with FootRow _ _ _ _ v _ => CellNumber v | BackRow _ _ _ _ => CellUndefined end.
Definition rowLTilt (r : EvalRow) : Cell :=
  match r with FootRow _ _ _ _ _ _ => CellUndefined | BackRow _ v _ _ => CellNumber v end.
Definition rowRTilt (r : EvalRow) : Cell :=
  match r with FootRow _ _ _ _ _ _ => CellUndefined | BackRow _ _ v _ => CellNumber v end.
Definition rowAsymmetry (r : EvalRow) : Cell :=
  match r with FootRow _ _ _ _ _ v | BackRow _ _ _ v => CellNumber v end.

(** The two headers of the table. *)
Inductive TableHead : Type :=
| FootHead   (* Time, L Avg Dist, R Avg Dist, L Avg Spd, R Avg Spd, Asym *)
| BackHead.  (* Time, L Avg Tilt, R Avg Tilt, Asym *)

Definition headWidth (h : TableHead) : nat :=
  match h with
  | FootHead => 6
  | BackHead => 4
  end.

(** The table: [thead] is [None] until a header is written. *)
Record EvalTable : Type := mkTable {
  thead : option TableHead;
  tbody : list (list Cell)
}.

Definition footCells (r : EvalRow) : list Cell :=
  [rowTime r; rowLDist r; rowRDist r; rowLSpeed r; rowRSpeed r; rowAsymmetry r].

Definition backCells (r : EvalRow) : list Cell :=
  [rowTime r; rowLTilt r; rowRTilt r; rowAsymmetry r].

(** [updateEvalTable()]: the body is emptied, then the last 20 rows are
    drawn under the header of the first of them. *)
Definition updateEvalTable (evalDataRows : list EvalRow) (table : EvalTable) : EvalTable :=
  let displayRows := sliceLast 20 evalDataRows in
  match displayRows with
  | [] => mkTable (thead table) []
  | FootRow _ _ _ _ _ _ :: _ => mkTable (Some FootHead) (map footCells displayRows)
  | BackRow _ _ _ _ :: _ => mkTable (Some BackHead) (map backCells displayRows)
  end.

End Display.

(* ====================================================================== *)
(** * Vocabulary for the rules of updateDeviceStatus                       *)
(* ====================================================================== *)

Module Rules.

Import Session.

(** The line holds none of the markers that [updateDeviceStatus] looks for
    with [includes]. *)
Definition noMarker (message : jsstring) : bool :=
  negb (includes (lit "INIT_OK") message)
  && negb (includes (lit "SCAN_STARTED") message)
  && negb (includes (lit "DUP_MAC:") message)
  && negb (includes (lit "DUP_LOC:") message)
  && negb (includes (lit "LOC_NOT_ALLOWED:") message)
  && negb (includes (lit "TYPE_FULL:") message)
  && negb (includes (lit "NO_TYPE") message)
  && negb (includes (lit "SLOT_FULL:") message).

(** The line starts with one of the two prefixes tested first. *)
Definition hasEarlyPrefix (message : jsstring) : bool :=
  startsWith BLE_RAW message || startsWith SCAN_FOUND message.

End Rules.

Import TextCodec Framer CommandBuilder ScanRegistry Session.

(* ====================================================================== *)
(** * Properties of the string primitives                                  *)
(* ====================================================================== *)

(** Boolean comparisons of the goal and the context turned into
    propositions, then linear arithmetic with the equations of the
    divisions by constants. *)
Ltac bool_to_prop :=
  repeat match goal with
  | H : _ && _ = true |- _ => apply andb_true_iff in H; destruct H
  | H : _ || _ = false |- _ => apply orb_false_iff in H; destruct H
  | H : negb _ = true |- _ => apply negb_true_iff in H
  | H : negb _ = false |- _ => apply negb_false_iff in H
  | H : (_ <=? _) = true |- _ => apply Z.leb_le in H
  | H : (_ <=? _) = false |- _ => apply Z.leb_gt in H
  | H : (_ <? _) = true |- _ => apply Z.ltb_lt in H
  | H : (_ <? _) = false |- _ => apply Z.ltb_ge in H
  | H : (_ =? _) = true |- _ => apply Z.eqb_eq in H
  | H : (_ =? _) = false |- _ => apply Z.eqb_neq in H
  end.

Ltac arith := bool_to_prop; Z.to_euclidean_division_equations; lia.

Section StringFacts.

Lemma streq_spec (a b : jsstring) : streq a b = true <-> a = b.
Proof.
  revert b; induction a as [|x a IH]; intros [|y b]; simpl;
    try (split; [discriminate | discriminate]); try tauto.
  rewrite andb_true_iff, Z.eqb_eq, IH.
  split; [intros [-> ->]; reflexivity | intros E; injection E; auto].
Qed.

Lemma startsWith_app (p s : jsstring) : startsWith p (p ++ s) = true.
Proof. induction p as [|x p IH]; simpl; [reflexivity|]. now rewrite Z.eqb_refl. Qed.

Lemma startsWith_spec (p s : jsstring) :
  startsWith p s = true <-> exists r, s = p ++ r.
Proof.
  split.
  - revert s; induction p as [|x p IH]; intros s H.
    + exists s; reflexivity.
    + destruct s as [|y s]; [discriminate|]. simpl in H.
      apply andb_true_iff in H as [E H]. apply Z.eqb_eq in E. subst y.
      destruct (IH _ H) as [r ->]. exists r; reflexivity.
  - intros [r ->]. apply startsWith_app.
Qed.


(** ** trim *)

Lemma trimStart_nil_iff (s : jsstring) :
  trimStart s = [] <-> forallb isWhiteSpace s = true.
Proof.
  induction s as [|c s IH]; simpl; [tauto|].
  destruct (isWhiteSpace c); simpl; [exact IH | split; discriminate].
Qed.

Lemma trimStart_ws_app (w s : jsstring) :
  forallb isWhiteSpace w = true -> trimStart (w ++ s) = trimStart s.
Proof.
  induction w as [|c w IH]; simpl; [reflexivity|].
  intros H; apply andb_true_iff in H as [-> H]. auto.
Qed.

Lemma trimStart_app_keep (s w : jsstring) :
  trimStart s <> [] -> trimStart (s ++ w) = trimStart s ++ w.
Proof.
  induction s as [|c s IH]; simpl; [tauto|].
  destruct (isWhiteSpace c); [exact IH | reflexivity].
Qed.

Lemma forallb_rev {A} (f : A -> bool) (l : list A) :
  forallb f (rev l) = forallb f l.
Proof.
  induction l as [|x l IH]; simpl; [reflexivity|].
  rewrite forallb_app, IH. simpl. rewrite andb_true_r. apply andb_comm.
Qed.

Lemma trim_all_ws (s : jsstring) :
  forallb isWhiteSpace s = true -> trim s = [].
Proof.
  intros H. unfold trim, trimEnd.
  apply trimStart_nil_iff in H. rewrite H. reflexivity.
Qed.

Lemma trim_app_ws (s w : jsstring) :
  forallb isWhiteSpace w = true -> trim (s ++ w) = trim s.
Proof.
  intros Hw. unfold trim, trimEnd.
  destruct (trimStart s) as [|c t] eqn:E.
  - apply trimStart_nil_iff in E.
    rewrite (trimStart_ws_app s w E).
    apply trimStart_nil_iff in Hw. rewrite Hw. reflexivity.
  - rewrite trimStart_app_keep by (rewrite E; discriminate).
    rewrite E, rev_app_distr.
    rewrite trimStart_ws_app by (now rewrite forallb_rev).
    reflexivity.
Qed.

Lemma trim_cons_ws (c : Z) (s : jsstring) :
  isWhiteSpace c = true -> trim (c :: s) = trim s.
Proof. intros H. unfold trim. simpl. now rewrite H. Qed.

End StringFacts.

(** ** The Number value of an integer *)

Section NumberFacts.

(** Below 2^53 the integer read is the number. *)
Lemma toDouble_small (x : Z) :
  Z.abs x < 9007199254740992 -> toDouble x = Int x.
Proof.
  intros H. unfold toDouble.
  destruct (Z.ltb_spec (Z.abs x) 9007199254740992); [reflexivity | lia].
Qed.

(** From 2^53 on the number is a multiple of the unit [u] of the binade of
    [x] with a significand of 53 bits, at most half a unit away from [x],
    and the even multiple when [x] is half a unit away from two of them. *)
Lemma toDouble_nearest (x y : Z) :
  9007199254740992 <= Z.abs x -> toDouble x = Int y ->
  let u := 2 ^ (Z.log2 (Z.abs x) - 52) in
  (exists k, y = k * u /\ 4503599627370496 <= Z.abs k <= 9007199254740992)
  /\ 2 * Z.abs (y - x) <= u
  /\ (2 * Z.abs (y - x) = u -> exists k, y = 2 * k * u).
Proof.
  intros Hx. unfold toDouble.
  destruct (Z.ltb_spec (Z.abs x) 9007199254740992) as [L|_]; [lia|].
  set (a := Z.abs x) in *. set (e := Z.log2 a - 52).
  assert (Ha : 0 < a) by lia.
  destruct (Z.log2_spec a Ha) as [Lo Hi].
  assert (He : 1 <= e).
  { unfold e. pose proof (Z.log2_le_mono _ _ Hx) as M.
    change (Z.log2 9007199254740992) with 53 in M. fold a in M. lia. }
  rewrite Z.shiftr_div_pow2, !Z.shiftl_mul_pow2 by lia. rewrite !Z.mul_1_l.
  set (u := 2 ^ e). set (h := 2 ^ (e - 1)).
  assert (Hu : u = 2 * h).
  { unfold u, h. replace e with (Z.succ (e - 1)) at 1 by lia.
    rewrite Z.pow_succ_r by lia. reflexivity. }
  assert (Hh : 0 < h) by (apply Z.pow_pos_nonneg; lia).
  assert (Lo' : 4503599627370496 * u <= a).
  { replace (Z.log2 a) with (52 + e) in Lo by (unfold e; lia).
    rewrite Z.pow_add_r in Lo by lia. exact Lo. }
  assert (Hi' : a < 9007199254740992 * u).
  { replace (Z.succ (Z.log2 a)) with (53 + e) in Hi by (unfold e; lia).
    rewrite Z.pow_add_r in Hi by lia. exact Hi. }
  pose proof (Z.div_mod a u ltac:(lia)) as D.
  pose proof (Z.mod_pos_bound a u ltac:(lia)) as B.
  set (q := a / u) in *. set (r := a mod u) in *.
  replace (a - q * u) with r by lia.
  assert (Q : 4503599627370496 <= q < 9007199254740992) by nia.
  intros E.
  assert (C : exists q', (q' = q \/ q' = q + 1)
                /\ (q' = q -> r <= h /\ (r = h -> Z.odd q = false))
                /\ (q' = q + 1 -> h <= r /\ (r = h -> Z.odd q = true))
                /\ y = Z.sgn x * (q' * u)).
  { revert E. destruct (Z.ltb_spec h r) as [G|G]; cbn [orb].
    - destruct (_ <=? _); [discriminate|].
      intros E. injection E as <-. exists (q + 1). repeat split; intros; try lia; try (exfalso; lia); try assumption.
    - destruct (Z.eqb_spec r h) as [R|R]; cbn [andb].
      + destruct (Z.odd q) eqn:O.
        * destruct (_ <=? _); [discriminate|].
          intros E. injection E as <-. exists (q + 1). repeat split; intros; try lia; try (exfalso; lia); try assumption.
        * destruct (_ <=? _); [discriminate|].
          intros E. injection E as <-. exists q. repeat split; intros; try lia; try (exfalso; lia); try assumption.
      + destruct (_ <=? _); [discriminate|].
        intros E. injection E as <-. exists q. repeat split; intros; try lia; try (exfalso; lia); try assumption. }
  destruct C as (q' & Hq & Cd & Cu & ->).
  assert (S : (0 < x /\ Z.sgn x = 1 /\ a = x) \/ (x < 0 /\ Z.sgn x = -1 /\ a = - x))
    by (unfold a; lia).
  split; [|split].
  - exists (Z.sgn x * q'). split; [ring|]. destruct S as [(_ & Es & _)|(_ & Es & _)]; rewrite Es; lia.
  - destruct S as [(_ & Es & Ea)|(_ & Es & Ea)]; rewrite Es; destruct Hq as [-> | ->];
      try specialize (Cd eq_refl); try specialize (Cu eq_refl); nia.
  - intros T.
    assert (R : r = h).
    { destruct S as [(_ & Es & Ea)|(_ & Es & Ea)]; rewrite Es in T;
        destruct Hq as [-> | ->];
        try specialize (Cd eq_refl); try specialize (Cu eq_refl); nia. }
    destruct Hq as [-> | ->].
    + destruct (Cd eq_refl) as [_ O]. specialize (O R).
      rewrite <- Z.negb_even in O. apply negb_false_iff, Z.even_spec in O as [k ->].
      exists (Z.sgn x * k). ring.
    + destruct (Cu eq_refl) as [_ O]. specialize (O R).
      apply Z.odd_spec in O as [k ->].
      exists (Z.sgn x * (k + 1)). ring.
Qed.

End NumberFacts.

(* ====================================================================== *)
(** * Properties of the text codec                                         *)
(* ====================================================================== *)

Section CodecFacts.

(** ** One step of the decoder, by the class of the byte read *)

Lemma decode_ascii (b : Z) (bs : list Z) :
  0 <= b <= 127 ->
  utf8_decode_from initial (b :: bs) = b :: utf8_decode_from initial bs.
Proof.
  intros H. cbn [utf8_decode_from initial bytesNeeded]. simpl (0 =? 0).
  unfold leadByte.
  replace ((0 <=? b) && (b <=? 127)) with true by (symmetry; apply andb_true_iff; split; apply Z.leb_le; lia).
  reflexivity.
Qed.

Lemma decode_lead2 (b : Z) (bs : list Z) :
  194 <= b <= 223 ->
  utf8_decode_from initial (b :: bs) =
  utf8_decode_from (mkDecoder (b mod 32) 0 1 128 191) bs.
Proof.
  intros H. cbn [utf8_decode_from initial bytesNeeded]. simpl (0 =? 0).
  unfold leadByte.
  replace ((0 <=? b) && (b <=? 127)) with false
    by (symmetry; apply andb_false_iff; right; apply Z.leb_gt; lia).
  replace ((194 <=? b) && (b <=? 223)) with true
    by (symmetry; apply andb_true_iff; split; apply Z.leb_le; lia).
  reflexivity.
Qed.

Lemma decode_lead3 (b : Z) (bs : list Z) :
  224 <= b <= 239 ->
  utf8_decode_from initial (b :: bs) =
  utf8_decode_from
    (mkDecoder (b mod 16) 0 2 (if b =? 224 then 160 else 128)
               (if b =? 237 then 159 else 191)) bs.
Proof.
  intros H. cbn [utf8_decode_from initial bytesNeeded]. simpl (0 =? 0).
  unfold leadByte.
  replace ((0 <=? b) && (b <=? 127)) with false
    by (symmetry; apply andb_false_iff; right; apply Z.leb_gt; lia).
  replace ((194 <=? b) && (b <=? 223)) with false
    by (symmetry; apply andb_false_iff; right; apply Z.leb_gt; lia).
  replace ((224 <=? b) && (b <=? 239)) with true
    by (symmetry; apply andb_true_iff; split; apply Z.leb_le; lia).
  reflexivity.
Qed.

Lemma decode_lead4 (b : Z) (bs : list Z) :
  240 <= b <= 244 ->
  utf8_decode_from initial (b :: bs) =
  utf8_decode_from
    (mkDecoder (b mod 8) 0 3 (if b =? 240 then 144 else 128)
               (if b =? 244 then 143 else 191)) bs.
Proof.
  intros H. cbn [utf8_decode_from initial bytesNeeded]. simpl (0 =? 0).
  unfold leadByte.
  replace ((0 <=? b) && (b <=? 127)) with false
    by (symmetry; apply andb_false_iff; right; apply Z.leb_gt; lia).
  replace ((194 <=? b) && (b <=? 223)) with false
    by (symmetry; apply andb_false_iff; right; apply Z.leb_gt; lia).
  replace ((224 <=? b) && (b <=? 239)) with false
    by (symmetry; apply andb_false_iff; right; apply Z.leb_gt; lia).
  replace ((240 <=? b) && (b <=? 244)) with true
    by (symmetry; apply andb_true_iff; split; apply Z.leb_le; lia).
  reflexivity.
Qed.

Lemma decode_continue (cp seen needed lo hi b : Z) (bs : list Z) :
  needed <> 0 -> lo <= b <= hi -> seen + 1 <> needed ->
  utf8_decode_from (mkDecoder cp seen needed lo hi) (b :: bs) =
  utf8_decode_from (mkDecoder (cp * 64 + b mod 64) (seen + 1) needed 128 191) bs.
Proof.
  intros Hn Hb Hs.
  cbn [utf8_decode_from bytesNeeded lowerBoundary upperBoundary codePoint bytesSeen].
  replace (needed =? 0) with false by (symmetry; apply Z.eqb_neq; lia).
  replace ((lo <=? b) && (b <=? hi)) with true
    by (symmetry; apply andb_true_iff; split; apply Z.leb_le; lia).
  replace (seen + 1 =? needed) with false by (symmetry; apply Z.eqb_neq; lia).
  reflexivity.
Qed.

Lemma decode_last (cp seen needed lo hi b : Z) (bs : list Z) :
  needed <> 0 -> lo <= b <= hi -> seen + 1 = needed ->
  utf8_decode_from (mkDecoder cp seen needed lo hi) (b :: bs) =
  (cp * 64 + b mod 64) :: utf8_decode_from initial bs.
Proof.
  intros Hn Hb Hs.
  cbn [utf8_decode_from bytesNeeded lowerBoundary upperBoundary codePoint bytesSeen].
  replace (needed =? 0) with false by (symmetry; apply Z.eqb_neq; lia).
  replace ((lo <=? b) && (b <=? hi)) with true
    by (symmetry; apply andb_true_iff; split; apply Z.leb_le; lia).
  replace (seen + 1 =? needed) with true by (symmetry; apply Z.eqb_eq; lia).
  reflexivity.
Qed.

(** ** The decoder undoes the encoder on every scalar value *)

Lemma decode_encode_scalar (cp : Z) (rest : list Z) :
  isScalar cp ->
  utf8_decode_from initial (utf8_encode_scalar cp ++ rest) =
  cp :: utf8_decode_from initial rest.
Proof.
  intros [Hr Hs]. unfold utf8_encode_scalar.
  destruct (Z.leb_spec cp 127) as [H1|H1].
  - cbn [app]. rewrite decode_ascii by lia. reflexivity.
  - destruct (Z.leb_spec cp 2047) as [H2|H2].
    + cbn [app]. rewrite decode_lead2 by arith.
      rewrite decode_last by arith. f_equal. arith.
    + destruct (Z.leb_spec cp 65535) as [H3|H3].
      * cbn [app]. rewrite decode_lead3 by arith.
        rewrite decode_continue;
          [ | lia
            | destruct (Z.eqb_spec (224 + cp / 4096) 224);
              destruct (Z.eqb_spec (224 + cp / 4096) 237); arith
            | lia ].
        rewrite decode_last by arith. f_equal. arith.
      * cbn [app]. rewrite decode_lead4 by arith.
        rewrite decode_continue;
          [ | lia
            | destruct (Z.eqb_spec (240 + cp / 262144) 240);
              destruct (Z.eqb_spec (240 + cp / 262144) 244); arith
            | lia ].
        rewrite decode_continue by arith.
        rewrite decode_last by arith. f_equal. arith.
Qed.

Lemma decode_encode_scalars (cps rest : list Z) :
  Forall isScalar cps ->
  utf8_decode_from initial (flat_map utf8_encode_scalar cps ++ rest) =
  cps ++ utf8_decode_from initial rest.
Proof.
  induction 1 as [|cp cps Hcp _ IH]; simpl; [reflexivity|].
  rewrite <- app_assoc, decode_encode_scalar by assumption.
  now rewrite IH.
Qed.

(** The encoding of a scalar value other than U+FEFF does not begin with
    the byte order mark. *)
Lemma stripBOM_encode_scalar (cp : Z) (rest : list Z) :
  isScalar cp -> cp <> 65279 ->
  stripBOM (utf8_encode_scalar cp ++ rest) = utf8_encode_scalar cp ++ rest.
Proof.
  intros [Hr Hs] Hn. unfold utf8_encode_scalar.
  destruct (Z.leb_spec cp 127) as [H1|H1];
    [|destruct (Z.leb_spec cp 2047) as [H2|H2];
      [|destruct (Z.leb_spec cp 65535) as [H3|H3]]]; cbn [app stripBOM].
  - destruct rest as [|r1 [|r2 rest]]; try reflexivity.
    replace (cp =? 239) with false by (symmetry; apply Z.eqb_neq; lia).
    reflexivity.
  - destruct rest as [|r1 rest]; try reflexivity.
    replace (192 + cp / 64 =? 239) with false by (symmetry; apply Z.eqb_neq; arith).
    reflexivity.
  - destruct ((224 + cp / 4096 =? 239) && (128 + (cp / 64) mod 64 =? 187)
              && (128 + cp mod 64 =? 191)) eqn:E; [exfalso; arith | reflexivity].
  - replace (240 + cp / 262144 =? 239) with false by (symmetry; apply Z.eqb_neq; arith).
    reflexivity.
Qed.

End CodecFacts.

Section Utf16Facts.

(** Induction over a well-formed string, one code unit or one surrogate
    pair at a time. *)
Lemma wellFormed_ind (P : jsstring -> Prop) :
  P [] ->
  (forall c s,
      isHighSurrogate c = false -> isLowSurrogate c = false ->
      0 <= c <= 65535 -> wellFormed s = true -> P s -> P (c :: s)) ->
  (forall c d s,
      isHighSurrogate c = true -> isLowSurrogate d = true ->
      wellFormed s = true -> P s -> P (c :: d :: s)) ->
  forall s, wellFormed s = true -> P s.
Proof.
  intros Hnil Hunit Hpair s.
  enough (H : (wellFormed s = true -> P s) /\
              (forall c, wellFormed (c :: s) = true -> P (c :: s)))
    by apply H.
  induction s as [|d s [IH1 IH2]].
  - split; [auto|]. intros c. simpl.
    destruct (isHighSurrogate c) eqn:Eh; [discriminate|].
    intros H. rewrite andb_true_r in H.
    apply andb_true_iff in H as [H Hl]. apply negb_true_iff in Hl.
    apply Hunit; auto. arith.
  - split; [apply IH2|]. intros c H.
    cbn [wellFormed] in H. fold (wellFormed (d :: s)) in H.
    destruct (isHighSurrogate c) eqn:Eh.
    + apply andb_true_iff in H as [Hd Hs]. apply Hpair; auto.
    + apply andb_true_iff in H as [H Hs].
      apply andb_true_iff in H as [H Hl]. apply negb_true_iff in Hl.
      apply Hunit; auto. arith.
Qed.

Lemma to_scalars_unit (c : Z) (s : jsstring) :
  isHighSurrogate c = false -> isLowSurrogate c = false ->
  to_scalars (c :: s) = c :: to_scalars s.
Proof. intros Hh Hl. cbn [to_scalars]. now rewrite Hh, Hl. Qed.

Lemma to_scalars_pair (c d : Z) (s : jsstring) :
  isHighSurrogate c = true -> isLowSurrogate d = true ->
  to_scalars (c :: d :: s) =
  (65536 + (c - 55296) * 1024 + (d - 56320)) :: to_scalars s.
Proof. intros Hh Hl. cbn [to_scalars]. now rewrite Hh, Hl. Qed.

Lemma to_scalars_wellFormed (s : jsstring) :
  wellFormed s = true ->
  Forall isScalar (to_scalars s) /\
  flat_map units_of_scalar (to_scalars s) = s.
Proof.
  revert s. apply wellFormed_ind;
    [ | intros c s Hh Hl Hc Hs [IHa IHb] | intros c d s Hh Hl Hs [IHa IHb] ].
  - split; [constructor | reflexivity].
  - rewrite to_scalars_unit by assumption. split.
    + constructor; [|assumption].
      unfold isHighSurrogate, isLowSurrogate in *. split; [lia|].
      intros [A B].
      destruct (Z.leb_spec 55296 c); destruct (Z.leb_spec c 56319);
        destruct (Z.leb_spec 56320 c); destruct (Z.leb_spec c 57343);
        simpl in *; try discriminate; lia.
    + cbn [flat_map]. rewrite IHb. unfold units_of_scalar.
      replace (c <? 65536) with true by (symmetry; apply Z.ltb_lt; lia).
      reflexivity.
  - rewrite to_scalars_pair by assumption.
    unfold isHighSurrogate, isLowSurrogate in *. split.
    + constructor; [|assumption]. split; arith.
    + cbn [flat_map]. rewrite IHb. unfold units_of_scalar.
      replace (65536 + (c - 55296) * 1024 + (d - 56320) <? 65536) with false
        by (symmetry; apply Z.ltb_ge; arith).
      cbn [app]. f_equal; [arith|]. f_equal. arith.
Qed.

Lemma to_scalars_app (a b : jsstring) :
  wellFormed a = true -> to_scalars (a ++ b) = to_scalars a ++ to_scalars b.
Proof.
  revert a. apply wellFormed_ind;
    [ | intros c s Hh Hl Hc Hs IH | intros c d s Hh Hl Hs IH ].
  - reflexivity.
  - rewrite <- app_comm_cons, !to_scalars_unit by assumption.
    now rewrite IH.
  - rewrite <- !app_comm_cons, !to_scalars_pair by assumption.
    now rewrite IH.
Qed.

Lemma wellFormed_app (a b : jsstring) :
  wellFormed a = true -> wellFormed b = true -> wellFormed (a ++ b) = true.
Proof.
  intros H Hb. revert a H. apply wellFormed_ind;
    [ | intros c s Hh Hl Hc Hs IH | intros c d s Hh Hl Hs IH ].
  - assumption.
  - rewrite <- app_comm_cons. cbn [wellFormed]. rewrite Hh, Hl, IH.
    replace ((0 <=? c) && (c <=? 65535)) with true
      by (symmetry; apply andb_true_iff; split; apply Z.leb_le; lia).
    reflexivity.
  - rewrite <- !app_comm_cons. cbn [wellFormed]. now rewrite Hh, Hl, IH.
Qed.

Lemma encode_app (a b : jsstring) :
  wellFormed a = true -> encode (a ++ b) = encode a ++ encode b.
Proof.
  intros H. unfold encode. now rewrite to_scalars_app, flat_map_app.
Qed.

(** The decoder gives back every well-formed string it is given the
    encoding of, up to a leading U+FEFF. *)
Lemma decode_encode (s : jsstring) :
  wellFormed s = true -> decode (encode s) = withoutBOM s.
Proof.
  assert (R : forall t, wellFormed t = true ->
              flat_map units_of_scalar (utf8_decode_from initial (encode t)) = t).
  { intros t Ht. destruct (to_scalars_wellFormed t Ht) as [Hs Hu].
    unfold encode.
    rewrite <- (app_nil_r (flat_map utf8_encode_scalar (to_scalars t))).
    rewrite decode_encode_scalars by assumption.
    cbn [utf8_decode_from initial bytesNeeded]. simpl (0 =? 0).
    now rewrite app_nil_r. }
  unfold decode. revert s. apply wellFormed_ind;
    [ | intros c s Hh Hl Hc Hs _ | intros c d s Hh Hl Hs _ ].
  - reflexivity.
  - cbn [withoutBOM]. destruct (Z.eqb_spec c 65279) as [->|N].
    + exact (R s Hs).
    + assert (W : wellFormed (c :: s) = true).
      { cbn [wellFormed]. rewrite Hh, Hl, Hs.
        replace ((0 <=? c) && (c <=? 65535)) with true
          by (symmetry; apply andb_true_iff; split; apply Z.leb_le; lia).
        reflexivity. }
      destruct (to_scalars_wellFormed _ W) as [Hsc _].
      rewrite to_scalars_unit in Hsc by assumption.
      replace (stripBOM (encode (c :: s))) with (encode (c :: s)); [exact (R _ W)|].
      unfold encode. rewrite to_scalars_unit by assumption. cbn [flat_map].
      symmetry. apply stripBOM_encode_scalar; [now inversion Hsc | assumption].
  - assert (W : wellFormed (c :: d :: s) = true).
    { cbn [wellFormed]. now rewrite Hh, Hl, Hs. }
    destruct (to_scalars_wellFormed _ W) as [Hsc _].
    rewrite to_scalars_pair in Hsc by assumption.
    cbn [withoutBOM].
    replace (c =? 65279) with false
      by (symmetry; apply Z.eqb_neq; unfold isHighSurrogate in Hh; arith).
    replace (stripBOM (encode (c :: d :: s))) with (encode (c :: d :: s));
      [exact (R _ W)|].
    unfold encode. rewrite to_scalars_pair by assumption. cbn [flat_map].
    symmetry. apply stripBOM_encode_scalar; [now inversion Hsc|].
    unfold isHighSurrogate, isLowSurrogate in *. arith.
Qed.

Lemma trim_withoutBOM (s : jsstring) : trim (withoutBOM s) = trim s.
Proof.
  destruct s as [|c s]; [reflexivity|]. cbn [withoutBOM].
  destruct (Z.eqb_spec c 65279) as [->|N]; [|reflexivity].
  symmetry. now apply trim_cons_ws.
Qed.

End Utf16Facts.

(* ====================================================================== *)
(** * Framer: round trip and the size limit                                *)
(* ====================================================================== *)

Lemma encode_CRLF : encode CRLF = [13; 10].
Proof. reflexivity. Qed.

Lemma wellFormed_terminated (b : jsstring) :
  wellFormed b = true -> wellFormed (terminated b) = true.
Proof.
  intros H. unfold terminated. destruct (endsWith CRLF b); [assumption|].
  now apply wellFormed_app.
Qed.

Lemma trim_terminated (b : jsstring) : trim (terminated b) = trim b.
Proof.
  unfold terminated. destruct (endsWith CRLF b); [reflexivity|].
  now apply trim_app_ws.
Qed.

Lemma length_encode_terminated (b : jsstring) :
  wellFormed b = true ->
  (length (encode (terminated b)) <= length (encode b) + 2)%nat.
Proof.
  intros H. unfold terminated. destruct (endsWith CRLF b); [lia|].
  rewrite encode_app, encode_CRLF, length_app by assumption. simpl. lia.
Qed.

(** C1 (amended): for every command body [b] that is a well-formed string
    (code units in range, no unpaired surrogate) and whose UTF-8 encoding
    together with a CRLF terminator is at most 64 bytes, [buildPacket b]
    succeeds with a packet, and [parsePacket] of that packet is [trim b]. *)
Theorem buildPacket_parsePacket_roundtrip (b : jsstring) :
  wellFormed b = true ->
  (length (encode b) + 2 <= 64)%nat ->
  exists packet,
    buildPacket b = Packet packet /\ parsePacket packet = trim b.
Proof.
  intros Hwf Hlen. exists (encode (terminated b)). split.
  - unfold buildPacket.
    pose proof (length_encode_terminated b Hwf) as L.
    destruct (Nat.ltb_spec 64 (length (encode (terminated b)))); [lia | reflexivity].
  - unfold parsePacket.
    rewrite decode_encode by now apply wellFormed_terminated.
    rewrite trim_withoutBOM. apply trim_terminated.
Qed.

(** The round trip at a body with a byte order mark, an accented letter, the
    euro sign, an emoji (a surrogate pair) and white space around it. *)
Lemma buildPacket_parsePacket_roundtrip_witness :
  let b := [65279; 32] ++ lit "$DM:" ++ [233; 8364; 55357; 56832; 32] in
  wellFormed b = true /\
  (length (encode b) + 2 <= 64)%nat /\
  exists packet,
    buildPacket b = Packet packet /\ parsePacket packet = trim b.
Proof.
  split; [reflexivity|]. split; [vm_compute; lia|].
  apply buildPacket_parsePacket_roundtrip; [reflexivity | vm_compute; lia].
Defined.

(** C1 as stated fails at a body holding an unpaired surrogate: TextEncoder
    writes U+FFFD for it, so the packet decodes to another string. *)
Lemma roundtrip_fails_on_unpaired_surrogate :
  let b := [55296] in
  (length (encode b) + 2 <= 64)%nat /\
  buildPacket b = Packet [239; 191; 189; 13; 10] /\
  parsePacket [239; 191; 189; 13; 10] = [65533] /\
  trim b = [55296] /\
  parsePacket [239; 191; 189; 13; 10] <> trim b.
Proof.
  cbv zeta. split; [vm_compute; lia|].
  split; [reflexivity|]. split; [reflexivity|]. split; [reflexivity|].
  vm_compute. discriminate.
Qed.

(** C2: when the encoded payload, CRLF appended if absent, is longer than 64
    bytes, [buildPacket] returns the oversize result with that length and no
    packet at all. *)
Theorem buildPacket_oversize (payload : jsstring) :
  (64 < length (encode (terminated payload)))%nat ->
  buildPacket payload = PayloadTooLong (length (encode (terminated payload)))
  /\ forall packet, buildPacket payload <> Packet packet.
Proof.
  intros H. unfold buildPacket.
  destruct (Nat.ltb_spec 64 (length (encode (terminated payload)))); [|lia].
  split; [reflexivity | discriminate].
Qed.

(** A body of 63 letters makes 65 bytes with its terminator. *)
Lemma buildPacket_oversize_witness :
  let payload := repeat 65%Z 63%nat in
  (64 < length (encode (terminated payload)))%nat /\
  buildPacket payload = PayloadTooLong 65%nat /\
  forall packet, buildPacket payload <> Packet packet.
Proof.
  cbv zeta.
  assert (H : (64 < length (encode (terminated (repeat 65%Z 63%nat))))%nat)
    by (vm_compute; lia).
  split; [exact H|].
  exact (buildPacket_oversize (repeat 65%Z 63%nat) H).
Defined.

(* ====================================================================== *)
(** * The connect builder                                                  *)
(* ====================================================================== *)

Lemma isUpperHex_spec (c : Z) : isUpperHex c = true <-> isHexDigit c.
Proof.
  unfold isUpperHex, isHexDigit.
  rewrite orb_true_iff, !andb_true_iff, !Z.leb_le. tauto.
Qed.

Lemma testHex_spec (s : jsstring) :
  testHex s = true <-> s <> [] /\ Forall isHexDigit s.
Proof.
  destruct s as [|c s]; [simpl; split; [discriminate | intros [N _]; tauto]|].
  unfold testHex. rewrite forallb_forall, Forall_forall.
  split.
  - intros H. split; [discriminate|]. intros x Hx. now apply isUpperHex_spec, H.
  - intros [_ H] x Hx. now apply isUpperHex_spec, H.
Qed.

Section ConnectFacts.

Variable toUpperCase : jsstring -> jsstring.

Lemma sendConnectDevice_cases (rawMac location : jsstring) :
  (toUpperCase (trim rawMac) = [] ->
   sendConnectDevice toUpperCase rawMac location = AlertEnterMac)
  /\ (toUpperCase (trim rawMac) <> [] -> ~ reducesToMac toUpperCase rawMac ->
      sendConnectDevice toUpperCase rawMac location = AlertInvalidMac)
  /\ (reducesToMac toUpperCase rawMac ->
      sendConnectDevice toUpperCase rawMac location =
      SendCommand (lit "DM:CONN:" ++ cleanMacOf toUpperCase rawMac ++ lit ":" ++ location)).
Proof.
  unfold reducesToMac, cleanMacOf, sendConnectDevice.
  destruct (toUpperCase (trim rawMac)) as [|c mac] eqn:E.
  - split; [reflexivity|]. split; [tauto|]. simpl. intros [L _]. discriminate.
  - set (clean := remove_all isSeparator (c :: mac)).
    split; [discriminate|].
    destruct (Nat.eqb_spec (length clean) 12) as [L|L]; simpl.
    + destruct (testHex clean) eqn:T; simpl.
      * split; [|reflexivity]. intros _ N. exfalso. apply N.
        split; [assumption|]. now apply testHex_spec.
      * split; [reflexivity|]. intros [_ F]. exfalso.
        assert (testHex clean = true); [|congruence].
        apply testHex_spec. split; [|assumption].
        intros Z0. rewrite Z0 in L. discriminate.
    + split; [reflexivity|]. intros [L' _]. tauto.
Qed.

End ConnectFacts.

(** C3 (amended): for every [toUpperCase] that is the ASCII uppercase map on
    ASCII strings, both spellings of the MAC of the specification give the
    same command [DM:CONN:5CF286477359:L1]; in general the field is trimmed,
    uppercased and stripped of [:] and [-], a field that reduces to twelve
    characters of [0-9A-F] gives [DM:CONN:<mac>:<location>], a field that does
    not is refused with the invalid-MAC alert, except that a field which is
    empty once trimmed is refused with the enter-MAC alert. *)
Theorem sendConnectDevice_mac (toUpperCase : jsstring -> jsstring) :
  (forall s, Forall isAscii s -> toUpperCase s = map asciiUpper s) ->
  sendConnectDevice toUpperCase (lit "5C:F2:86:47:73:59") (lit "L1")
    = SendCommand (lit "DM:CONN:5CF286477359:L1")
  /\ sendConnectDevice toUpperCase (lit "5cf286477359") (lit "L1")
    = SendCommand (lit "DM:CONN:5CF286477359:L1")
  /\ forall rawMac location,
       (toUpperCase (trim rawMac) = [] ->
        sendConnectDevice toUpperCase rawMac location = AlertEnterMac)
       /\ (toUpperCase (trim rawMac) <> [] -> ~ reducesToMac toUpperCase rawMac ->
           sendConnectDevice toUpperCase rawMac location = AlertInvalidMac)
       /\ (reducesToMac toUpperCase rawMac ->
           sendConnectDevice toUpperCase rawMac location =
           SendCommand (lit "DM:CONN:" ++ cleanMacOf toUpperCase rawMac
                          ++ lit ":" ++ location)).
Proof.
  intros Hup.
  assert (A : forall s, forallb (fun c => (0 <=? c) && (c <? 128)) s = true ->
              toUpperCase s = map asciiUpper s).
  { intros s H. apply Hup. apply Forall_forall. intros x Hx.
    rewrite forallb_forall in H. specialize (H x Hx). unfold isAscii. arith. }
  split; [|split].
  - unfold sendConnectDevice.
    replace (trim (lit "5C:F2:86:47:73:59")) with (lit "5C:F2:86:47:73:59")
      by reflexivity.
    rewrite A by reflexivity. reflexivity.
  - unfold sendConnectDevice.
    replace (trim (lit "5cf286477359")) with (lit "5cf286477359") by reflexivity.
    rewrite A by reflexivity. reflexivity.
  - intros rawMac location. apply sendConnectDevice_cases.
Qed.

(** The theorem at the uppercase map of the ASCII range. *)
Lemma sendConnectDevice_mac_witness :
  (forall s, Forall isAscii s -> map asciiUpper s = map asciiUpper s) /\
  sendConnectDevice (map asciiUpper) (lit "5C:F2:86:47:73:59") (lit "L1")
    = SendCommand (lit "DM:CONN:5CF286477359:L1")
  /\ sendConnectDevice (map asciiUpper) (lit "5cf286477359") (lit "L1")
    = SendCommand (lit "DM:CONN:5CF286477359:L1")
  /\ sendConnectDevice (map asciiUpper) (lit "5CF2864773") (lit "L1")
    = AlertInvalidMac.
Proof.
  split; [reflexivity|].
  destruct (sendConnectDevice_mac (map asciiUpper) (fun s _ => eq_refl)) as [E1 [E2 E3]].
  split; [exact E1|]. split; [exact E2|].
  destruct (E3 (lit "5CF2864773") (lit "L1")) as [_ [E _]].
  apply E; [discriminate|]. intros [L _]. vm_compute in L. discriminate.
Defined.

(** C3 as stated fails at the empty MAC field: it does not reduce to twelve
    hexadecimal characters, and the outcome is the enter-MAC alert, not the
    invalid-MAC one. *)
Lemma sendConnectDevice_blank_mac :
  ~ reducesToMac (map asciiUpper) (lit "") /\
  ~ reducesToMac (map asciiUpper) (lit "   ") /\
  sendConnectDevice (map asciiUpper) (lit "") (lit "L1") = AlertEnterMac /\
  sendConnectDevice (map asciiUpper) (lit "   ") (lit "L1") = AlertEnterMac /\
  AlertEnterMac <> AlertInvalidMac.
Proof.
  split; [intros [L _]; vm_compute in L; discriminate|].
  split; [intros [L _]; vm_compute in L; discriminate|].
  split; [reflexivity|]. split; [reflexivity|]. discriminate.
Qed.

(* ====================================================================== *)
(** * The scan registry                                                    *)
(* ====================================================================== *)

Section RegistryFacts.

Lemma hasMac_true (m : jsstring) (r : ScanRecord) : hasMac m r = true <-> mac r = m.
Proof. apply streq_spec. Qed.

Lemma hasMac_false (m : jsstring) (r : ScanRecord) : hasMac m r = false <-> mac r <> m.
Proof.
  rewrite <- hasMac_true. destruct (hasMac m r); split; congruence.
Qed.

Lemma find_hasMac_None (m : jsstring) (rs : list ScanRecord) :
  find (hasMac m) rs = None <-> ~ In m (map mac rs).
Proof.
  induction rs as [|r rs IH]; simpl; [tauto|].
  destruct (hasMac m r) eqn:E.
  - apply hasMac_true in E. split; [discriminate | tauto].
  - apply hasMac_false in E. rewrite IH. tauto.
Qed.

Lemma find_hasMac_Some (m : jsstring) (rs : list ScanRecord) :
  In m (map mac rs) -> exists r, find (hasMac m) rs = Some r.
Proof.
  intros H. destruct (find (hasMac m) rs) as [r|] eqn:E; [now exists r|].
  apply find_hasMac_None in E. tauto.
Qed.

Lemma assignRssi_first (m : jsstring) (v : jsnumber) (rs : list ScanRecord) :
  In m (map mac rs) ->
  exists before r after,
    rs = before ++ r :: after /\ mac r = m /\ ~ In m (map mac before) /\
    assignRssi m v rs = before ++ mkScan m v (name r) :: after.
Proof.
  induction rs as [|r rs IH]; simpl; [tauto|]. intros H.
  destruct (hasMac m r) eqn:E.
  - apply hasMac_true in E. exists [], r, rs. simpl. rewrite E. tauto.
  - apply hasMac_false in E. destruct H as [H|H]; [tauto|].
    destruct (IH H) as (before & r' & after & -> & Hm & Hn & Ha).
    exists (r :: before), r', after. simpl. rewrite Ha.
    repeat split; auto. intros [F|F]; tauto.
Qed.

Lemma map_mac_assignRssi (m : jsstring) (v : jsnumber) (rs : list ScanRecord) :
  map mac (assignRssi m v rs) = map mac rs.
Proof.
  induction rs as [|r rs IH]; simpl; [reflexivity|].
  destruct (hasMac m r); simpl; [reflexivity | now rewrite IH].
Qed.

Lemma addScanResult_NoDup (m : jsstring) (v : jsnumber) (n : jsstring)
  (rs : list ScanRecord) :
  NoDup (map mac rs) -> NoDup (map mac (addScanResult m v n rs)).
Proof.
  intros H. unfold addScanResult.
  destruct (find (hasMac m) rs) eqn:E.
  - now rewrite map_mac_assignRssi.
  - apply find_hasMac_None in E. rewrite map_app. simpl.
    apply NoDup_app; [assumption | repeat constructor; simpl; tauto | ].
    intros x Hx [<-|[]]. tauto.
Qed.

Lemma addAll_NoDup (calls : list (jsstring * jsnumber * jsstring))
  (rs : list ScanRecord) :
  NoDup (map mac rs) -> NoDup (map mac (addAll calls rs)).
Proof.
  revert rs. induction calls as [|[[m v] n] calls IH]; intros rs H; [exact H|].
  simpl. apply IH. now apply addScanResult_NoDup.
Qed.

End RegistryFacts.

(* ====================================================================== *)
(** * The receive path                                                     *)
(* ====================================================================== *)

Section ReceiveFacts.

(** ** Prefixes of the response grammar exclude one another *)

Lemma scanFound_not_bleRaw (m : jsstring) :
  startsWith SCAN_FOUND m = true -> startsWith BLE_RAW m = false.
Proof. intros H. apply startsWith_spec in H as [r ->]. reflexivity. Qed.

Lemma scanFound_not_evalStop (m : jsstring) :
  startsWith SCAN_FOUND m = true -> startsWith EVAL_STOP_OK m = false.
Proof. intros H. apply startsWith_spec in H as [r ->]. reflexivity. Qed.

Lemma scanFound_not_manTimeout (m : jsstring) :
  startsWith SCAN_FOUND m = true -> startsWith MAN_TIMEOUT m = false.
Proof. intros H. apply startsWith_spec in H as [r ->]. reflexivity. Qed.

Lemma evalStop_not_manTimeout (m : jsstring) :
  startsWith EVAL_STOP_OK m = true -> startsWith MAN_TIMEOUT m = false.
Proof. intros H. apply startsWith_spec in H as [r ->]. reflexivity. Qed.

Lemma startsWith_nil_false (p : jsstring) :
  p <> [] -> startsWith p [] = false.
Proof. destruct p; [tauto | reflexivity]. Qed.

(** ** [updateDeviceStatus] writes the status and the registry only *)

Lemma updateDeviceStatus_frame (message : jsstring) (st : State) :
  evalDataRows (updateDeviceStatus message st) = evalDataRows st
  /\ receivedLog (updateDeviceStatus message st) = receivedLog st
  /\ console (updateDeviceStatus message st) = console st.
Proof.
  unfold updateDeviceStatus.
  repeat match goal with
         | |- context [if ?c then _ else _] => destruct c
         end; repeat split; reflexivity.
Qed.

(** ** [handleNotification] on a payload that is not empty *)

Lemma handleNotification_payload (value : list Z) (t1 t2 : jsstring) (st : State) :
  parsePacket value <> [] ->
  handleNotification value t1 t2 st =
  let payload := parsePacket value in
  let st2 := updateDeviceStatus payload (logReceived (LogPayload t1 payload) st) in
  let st3 := if startsWith EVAL_STOP_OK payload
             then handleEvalStopData payload t2 st2 else st2 in
  if startsWith MAN_TIMEOUT payload
  then logReceived LogManualStopped st3 else st3.
Proof.
  intros H. unfold handleNotification.
  destruct (parsePacket value); [tauto | reflexivity].
Qed.

Lemma startsWith_nonempty (p s : jsstring) :
  p <> [] -> startsWith p s = true -> s <> [].
Proof.
  intros Hp H ->. rewrite startsWith_nil_false in H by assumption. discriminate.
Qed.

(** ** split *)

Lemma split_no_sep (sep : Z) (s : jsstring) :
  ~ In sep s -> split sep s = [s].
Proof.
  induction s as [|c s IH]; simpl; [reflexivity|]. intros H.
  destruct (Z.eqb_spec c sep) as [->|N]; [tauto|].
  rewrite IH by tauto. reflexivity.
Qed.

Lemma split_first (sep : Z) (a b : jsstring) :
  ~ In sep a -> split sep (a ++ sep :: b) = a :: split sep b.
Proof.
  induction a as [|c a IH]; simpl; intros H.
  - now rewrite Z.eqb_refl.
  - destruct (Z.eqb_spec c sep) as [->|N]; [tauto|].
    rewrite IH by tauto. reflexivity.
Qed.

(** ** The pattern of [handleEvalStopData] *)




End ReceiveFacts.

(** ** Scan results *)

(** C4 (amended): for every line [#DM:SCAN:FOUND:<mac>,<name>,<rssi>] whose
    three fields hold no comma, well-formed rssi or not, [updateDeviceStatus]
    shows the scan-found status and calls [addScanResult] with the mac, the
    name and [parseInt] of the rssi field; when that is [NaN] and the mac is
    new, a record with rssi [NaN] is appended to the registry. *)
Theorem scanFound_upserts_parseInt (st : State) (m n r : jsstring) :
  ~ In 44 m -> ~ In 44 n -> ~ In 44 r ->
  let line := SCAN_FOUND ++ m ++ lit "," ++ n ++ lit "," ++ r in
  updateDeviceStatus line st =
    setDeviceStatus (StatusScanFound n m)
      (setScanResults (addScanResult m (parseInt r) n (scanResults st)) st)
  /\ (parseInt r = NaN -> ~ In m (map mac (scanResults st)) ->
      scanResults (updateDeviceStatus line st) = scanResults st ++ [mkScan m NaN n]).
Proof.
  intros Hm Hn Hr line.
  assert (E : updateDeviceStatus line st =
              setDeviceStatus (StatusScanFound n m)
                (setScanResults (addScanResult m (parseInt r) n (scanResults st)) st)).
  { unfold updateDeviceStatus.
    assert (S : startsWith SCAN_FOUND line = true) by apply startsWith_app.
    rewrite (scanFound_not_bleRaw line S), S.
    unfold substring, line. rewrite skipn_app, skipn_all, Nat.sub_diag.
    cbn [skipn app lit]. change (Z.of_N (N_of_ascii ",")) with 44.
    rewrite split_first by assumption. rewrite split_first by assumption.
    rewrite split_no_sep by assumption. reflexivity. }
  split; [exact E|].
  intros Hnan Hnew. rewrite E. cbn [scanResults setDeviceStatus setScanResults].
  unfold addScanResult. apply find_hasMac_None in Hnew. now rewrite Hnew, Hnan.
Qed.

(** The line of the specification with a malformed rssi, on an empty
    registry. *)
Lemma scanFound_upserts_parseInt_witness :
  let m := lit "AABBCCDDEEFF" in
  let n := lit "Sensor1" in
  let r := lit "abc" in
  (~ In 44 m /\ ~ In 44 n /\ ~ In 44 r) /\
  scanResults
    (updateDeviceStatus (lit "#DM:SCAN:FOUND:AABBCCDDEEFF,Sensor1,abc") initialState)
  = [mkScan m NaN n].
Proof.
  cbv zeta.
  assert (H1 : ~ In 44 (lit "AABBCCDDEEFF")) by (simpl; intuition discriminate).
  assert (H2 : ~ In 44 (lit "Sensor1")) by (simpl; intuition discriminate).
  assert (H3 : ~ In 44 (lit "abc")) by (simpl; intuition discriminate).
  split; [tauto|].
  destruct (scanFound_upserts_parseInt initialState _ _ _ H1 H2 H3) as [_ E].
  apply E; [reflexivity | simpl; tauto].
Defined.

(** C4 as stated fails: the rssi field [abc] is no integer, yet the status
    shown is the scan-found one, not the fallback, a record is inserted into
    an empty registry, and the rssi of a record already there is overwritten
    with [NaN]. *)
Lemma scanFound_malformed_rssi_is_recorded :
  let line := lit "#DM:SCAN:FOUND:AABBCCDDEEFF,Sensor1,abc" in
  let known := mkState [] [mkScan (lit "AABBCCDDEEFF") (Int (-65)) (lit "Sensor1")]
                       StatusEmpty [] [] in
  parseInt (lit "abc") = NaN /\
  deviceStatus (updateDeviceStatus line initialState)
    = StatusScanFound (lit "Sensor1") (lit "AABBCCDDEEFF") /\
  deviceStatus (updateDeviceStatus line initialState) <> StatusOther line /\
  scanResults (updateDeviceStatus line initialState)
    = [mkScan (lit "AABBCCDDEEFF") NaN (lit "Sensor1")] /\
  scanResults (updateDeviceStatus line initialState) <> scanResults initialState /\
  scanResults (updateDeviceStatus line known)
    = [mkScan (lit "AABBCCDDEEFF") NaN (lit "Sensor1")] /\
  scanResults (updateDeviceStatus line known) <> scanResults known.
Proof.
  cbv zeta. repeat split; try reflexivity; vm_compute; discriminate.
Qed.

(** C9: a line that starts with [#DM:SCAN:FOUND:] and has fewer than three
    comma-separated fields after it leaves the status empty, adds only the
    raw payload line to the log, and leaves the scan registry, the evaluation
    history and the console as they were. *)
Theorem scanFound_short_no_event (value : list Z) (t1 t2 : jsstring) (st : State) :
  let line := parsePacket value in
  let st' := handleNotification value t1 t2 st in
  startsWith SCAN_FOUND line = true ->
  (length (split 44 (substring (length SCAN_FOUND) line)) < 3)%nat ->
  deviceStatus st' = StatusEmpty
  /\ scanResults st' = scanResults st
  /\ evalDataRows st' = evalDataRows st
  /\ receivedLog st' = receivedLog st ++ [LogPayload t1 line]
  /\ console st' = console st.
Proof.
  intros line st' S L. subst st'.
  rewrite handleNotification_payload
    by (apply (startsWith_nonempty SCAN_FOUND); [discriminate | exact S]).
  cbv zeta. fold line.
  rewrite (scanFound_not_evalStop line S), (scanFound_not_manTimeout line S).
  unfold updateDeviceStatus.
  rewrite (scanFound_not_bleRaw line S), S.
  destruct (Nat.leb_spec 3 (length (split 44 (substring (length SCAN_FOUND) line))));
    [lia|].
  repeat split; reflexivity.
Qed.

Lemma scanFound_short_no_event_witness :
  let value := encode (lit "#DM:SCAN:FOUND:AABBCCDDEEFF,Sensor1") ++ [13; 10] in
  let st' := handleNotification value (lit "10:00:00") (lit "10:00:00") initialState in
  parsePacket value = lit "#DM:SCAN:FOUND:AABBCCDDEEFF,Sensor1" /\
  deviceStatus st' = StatusEmpty /\
  scanResults st' = [] /\
  evalDataRows st' = [].
Proof.
  cbv zeta. split; [reflexivity|].
  destruct (scanFound_short_no_event
              (encode (lit "#DM:SCAN:FOUND:AABBCCDDEEFF,Sensor1") ++ [13; 10])
              (lit "10:00:00") (lit "10:00:00") initialState)
    as (A & B & C & _); [reflexivity | vm_compute; lia |].
  split; [exact A|]. split; [exact B | exact C].
Defined.

(** C10: a buffer that decodes to white space only, the empty buffer
    included, parses to the empty string; [handleNotification] then logs the
    parse failure and returns: the status, the scan registry, the evaluation
    history and the console are as they were. *)
Theorem blank_buffer_is_parse_failure (value : list Z) (t1 t2 : jsstring) (st : State) :
  forallb isWhiteSpace (decode value) = true ->
  parsePacket value = []
  /\ handleNotification value t1 t2 st = logReceived LogParseFailed st
  /\ deviceStatus (handleNotification value t1 t2 st) = deviceStatus st
  /\ scanResults (handleNotification value t1 t2 st) = scanResults st
  /\ evalDataRows (handleNotification value t1 t2 st) = evalDataRows st.
Proof.
  intros H.
  assert (E : parsePacket value = []) by (now apply trim_all_ws).
  assert (F : handleNotification value t1 t2 st = logReceived LogParseFailed st)
    by (unfold handleNotification; now rewrite E).
  rewrite F. repeat split; auto.
Qed.

Lemma blank_buffer_is_parse_failure_witness :
  let value := [239; 187; 191; 32; 9; 13; 10] in
  forallb isWhiteSpace (decode value) = true /\
  parsePacket value = [] /\
  handleNotification value (lit "10:00:00") (lit "10:00:00") initialState
  = logReceived LogParseFailed initialState /\
  forallb isWhiteSpace (decode []) = true /\
  handleNotification [] (lit "10:00:00") (lit "10:00:00") initialState
  = logReceived LogParseFailed initialState.
Proof.
  cbv zeta. split; [reflexivity|].
  destruct (blank_buffer_is_parse_failure [239; 187; 191; 32; 9; 13; 10]
              (lit "10:00:00") (lit "10:00:00") initialState eq_refl)
    as (A & B & _).
  split; [exact A|]. split; [exact B|]. split; [reflexivity|].
  apply (blank_buffer_is_parse_failure [] (lit "10:00:00") (lit "10:00:00")
           initialState eq_refl).
Defined.

(** ** Evaluation summaries *)




(** ** The order of the rules *)

Section DispatchFacts.

Lemma bleRaw_not_scanFound (m : jsstring) :
  startsWith BLE_RAW m = true -> startsWith SCAN_FOUND m = false.
Proof. intros H. apply startsWith_spec in H as [r ->]. reflexivity. Qed.

Lemma bleRaw_hash (m : jsstring) :
  startsWith BLE_RAW m = true -> startsWith (lit "#") m = true.
Proof. intros H. apply startsWith_spec in H as [r ->]. reflexivity. Qed.

Lemma scanFound_hash (m : jsstring) :
  startsWith SCAN_FOUND m = true -> startsWith (lit "#") m = true.
Proof. intros H. apply startsWith_spec in H as [r ->]. reflexivity. Qed.

Lemma err_hash (m : jsstring) :
  startsWith (lit "#ERR") m = true -> startsWith (lit "#") m = true.
Proof. intros H. apply startsWith_spec in H as [r ->]. reflexivity. Qed.

Lemma handleEvalStopData_frame (message t : jsstring) (st : State) :
  deviceStatus (handleEvalStopData message t st) = deviceStatus st
  /\ scanResults (handleEvalStopData message t st) = scanResults st.
Proof.
  unfold handleEvalStopData.
  destruct (matchEvalStop message) as [data|]; [|split; reflexivity].
  destruct (map (fun s => parseInt (trim s)) (split 44 data))
    as [|p0 [|p1 [|p2 [|p3 [|p4 [|p5 ps]]]]]]; split; reflexivity.
Qed.

(** After [updateDeviceStatus], the receive path changes neither the status
    nor the registry. *)
Lemma handleNotification_status (value : list Z) (t1 t2 : jsstring) (st : State) :
  parsePacket value <> [] ->
  let st2 := updateDeviceStatus (parsePacket value)
               (logReceived (LogPayload t1 (parsePacket value)) st) in
  deviceStatus (handleNotification value t1 t2 st) = deviceStatus st2
  /\ scanResults (handleNotification value t1 t2 st) = scanResults st2.
Proof.
  intros H st2. rewrite handleNotification_payload by assumption.
  cbv zeta. fold st2.
  destruct (handleEvalStopData_frame (parsePacket value) t2 st2) as [A B].
  destruct (startsWith EVAL_STOP_OK (parsePacket value));
    destruct (startsWith MAN_TIMEOUT (parsePacket value));
    cbn [deviceStatus scanResults logReceived]; auto.
Qed.

(** The status and the registry [updateDeviceStatus] computes do not depend
    on the log. *)
Lemma updateDeviceStatus_log (message : jsstring) (l : LogLine) (st : State) :
  deviceStatus (updateDeviceStatus message (logReceived l st))
  = deviceStatus (updateDeviceStatus message st)
  /\ scanResults (updateDeviceStatus message (logReceived l st))
     = scanResults (updateDeviceStatus message st).
Proof.
  unfold updateDeviceStatus.
  repeat match goal with
         | |- context [if ?c then _ else _] => destruct c
         end; split; reflexivity.
Qed.

(** ** The registry along a run *)

Lemma updateDeviceStatus_NoDup (message : jsstring) (st : State) :
NoDup (map mac (scanResults st)) ->
NoDup (map mac (scanResults (updateDeviceStatus message st))).
Proof.
intros H. unfold updateDeviceStatus.
repeat match goal with
       | |- context [if ?c then _ else _] => destruct c
       end;
  cbn [scanResults setDeviceStatus setScanResults clearScanResults map];
  try assumption; [now apply addScanResult_NoDup | constructor].
Qed.

Lemma handleNotification_NoDup (value : list Z) (t1 t2 : jsstring) (st : State) :
NoDup (map mac (scanResults st)) ->
NoDup (map mac (scanResults (handleNotification value t1 t2 st))).
Proof.
intros H. destruct (parsePacket value) as [|c l] eqn:E.
- unfold handleNotification. rewrite E. exact H.
- assert (N : parsePacket value <> []) by (rewrite E; discriminate).
  destruct (handleNotification_status value t1 t2 st N) as [_ R].
  rewrite R. now apply updateDeviceStatus_NoDup.
Qed.

Lemma receiveAll_NoDup (events : list (list Z * jsstring * jsstring)) (st : State) :
NoDup (map mac (scanResults st)) ->
NoDup (map mac (scanResults (receiveAll events st))).
Proof.
revert st. induction events as [|[[value t1] t2] events IH]; intros st H; [exact H|].
simpl. apply IH. now apply handleNotification_NoDup.
Qed.

End DispatchFacts.

(** ** Evaluation summaries: rows and status *)





(** ** The registry *)

(** C6: in every registry, [addScanResult m v n] on a mac that is present
    rewrites the rssi of the first record with that mac, keeps its name and
    every other record, and keeps the number of records; on a mac that is
    absent it appends the full record.  Distinct macs stay distinct, so the
    registry built by any sequence of calls from the empty one holds at most
    one record per mac, and so does [scanResults] after any sequence of
    notifications received by a freshly loaded page. *)
Theorem addScanResult_upsert
  (scanResults : list ScanRecord) (m : jsstring) (v : jsnumber) (n : jsstring) :
  (In m (map mac scanResults) ->
     exists before r after,
       scanResults = before ++ r :: after /\ mac r = m /\
       ~ In m (map mac before) /\
       addScanResult m v n scanResults = before ++ mkScan m v (name r) :: after /\
       length (addScanResult m v n scanResults) = length scanResults)
  /\ (~ In m (map mac scanResults) ->
      addScanResult m v n scanResults = scanResults ++ [mkScan m v n])
  /\ (NoDup (map mac scanResults) ->
      NoDup (map mac (addScanResult m v n scanResults)))
  /\ (forall calls,
        NoDup (map mac (addAll calls [])) /\
        (NoDup (map mac scanResults) ->
         NoDup (map mac (addAll calls scanResults))))
  /\ (forall events,
        NoDup (map mac (Session.scanResults (receiveAll events initialState)))).
Proof.
  split; [|split; [|split; [|split]]].
  - intros H. destruct (assignRssi_first m v scanResults H)
      as (before & r & after & E & Hm & Hn & Ha).
    exists before, r, after. unfold addScanResult.
    destruct (find_hasMac_Some m scanResults H) as [r' ->].
    rewrite Ha. repeat split; auto.
    rewrite E, !length_app. reflexivity.
  - intros H. unfold addScanResult.
    apply find_hasMac_None in H. now rewrite H.
  - apply addScanResult_NoDup.
  - intros calls. split; [apply addAll_NoDup; constructor | apply addAll_NoDup].
  - intros events. apply receiveAll_NoDup. constructor.
Qed.

(** C7 (amended): [updateDeviceStatus] is defined on every line and writes
    one status; that status is one of the templates, except for the lines
    that start with [#DM:SCAN:FOUND:] with fewer than three fields, where it
    is the empty status; it is the fallback template exactly when no rule
    matches.  On every received buffer with a payload that is not empty the
    status after [handleNotification] is the one [updateDeviceStatus] wrote. *)
Theorem updateDeviceStatus_total (message : jsstring) (st : State) :
  let h := deviceStatus (updateDeviceStatus message st) in
  (h = StatusEmpty <-> scanFoundShort message = true)
  /\ (h = StatusOther message <-> noRuleMatches message = true)
  /\ (forall value t1 t2,
        parsePacket value = message -> message <> [] ->
        deviceStatus (handleNotification value t1 t2 st) = h).
Proof.
  intros h. split; [|split].
  - subst h. unfold updateDeviceStatus, scanFoundShort.
    destruct (startsWith BLE_RAW message) eqn:B.
    { rewrite (bleRaw_not_scanFound _ B). simpl. split; discriminate. }
    destruct (startsWith SCAN_FOUND message) eqn:S.
    { destruct (Nat.leb_spec 3 (length (split 44 (substring (length SCAN_FOUND) message))))
        as [L|L];
        destruct (Nat.ltb_spec (length (split 44 (substring (length SCAN_FOUND) message))) 3);
        try lia; simpl; split; (discriminate || reflexivity). }
    simpl.
    repeat match goal with
           | |- context [if ?c then _ else _] => destruct c
           end; split; discriminate.
  - subst h. unfold updateDeviceStatus, noRuleMatches.
    destruct (startsWith BLE_RAW message) eqn:B.
    { rewrite (bleRaw_hash _ B). simpl. split; discriminate. }
    destruct (startsWith SCAN_FOUND message) eqn:S.
    { rewrite (scanFound_hash _ S).
      destruct (3 <=? length (split 44 (substring (length SCAN_FOUND) message)))%nat;
        simpl; split; discriminate. }
    destruct (includes (lit "INIT_OK") message);
      [rewrite andb_false_r; simpl; split; discriminate|].
    destruct (includes (lit "SCAN_STARTED") message);
      [rewrite andb_false_r; simpl; split; discriminate|].
    destruct (includes (lit "DUP_MAC:") message);
      [rewrite andb_false_r; simpl; split; discriminate|].
    destruct (includes (lit "DUP_LOC:") message);
      [rewrite andb_false_r; simpl; split; discriminate|].
    destruct (includes (lit "LOC_NOT_ALLOWED:") message);
      [rewrite andb_false_r; simpl; split; discriminate|].
    destruct (includes (lit "TYPE_FULL:") message);
      [rewrite andb_false_r; simpl; split; discriminate|].
    destruct (includes (lit "NO_TYPE") message);
      [rewrite andb_false_r; simpl; split; discriminate|].
    destruct (includes (lit "SLOT_FULL:") message);
      [rewrite andb_false_r; simpl; split; discriminate|].
    destruct (startsWith (lit "#ERR") message) eqn:Er.
    { rewrite (err_hash _ Er). simpl. split; discriminate. }
    destruct (startsWith (lit "#") message); simpl; split;
      (discriminate || reflexivity).
  - intros value t1 t2 E N. subst h. rewrite <- E in N |- *.
    destruct (handleNotification_status value t1 t2 st N) as [A _].
    rewrite A. apply updateDeviceStatus_log.
Qed.

(** C7 as stated fails at a scan line with one field: a rule of the table
    matches its prefix, and the status written is the empty one, neither the
    scan-found template nor the fallback nor any other. *)
Lemma scanFound_short_line_has_no_status :
  let line := lit "#DM:SCAN:FOUND:AABBCCDDEEFF" in
  let t := lit "10:00:00" in
  parsePacket (encode line) = line /\
  deviceStatus (updateDeviceStatus line initialState) = StatusEmpty /\
  deviceStatus (handleNotification (encode line) t t
                  (setDeviceStatus StatusNoType initialState)) = StatusEmpty /\
  deviceStatus (updateDeviceStatus line initialState) <> StatusOther line /\
  deviceStatus (updateDeviceStatus line initialState)
    <> StatusScanFound (lit "") (lit "AABBCCDDEEFF").
Proof.
  cbv zeta. repeat split; try reflexivity; vm_compute; discriminate.
Qed.

(** ** Clearing the registry *)

(** C8 (amended): for every received line that holds [INIT_OK] or
    [SCAN_STARTED] and starts with neither [#BLE:RAW:] nor [#DM:SCAN:FOUND:],
    the status is the success template with the line, the scan registry is
    emptied, and [updateDeviceStatus] leaves the evaluation history as it was;
    the history after [handleNotification] is unchanged too when the line
    does not start with [#EVAL:STOP:STOP_OK:]. *)
Theorem initOk_clears_scan_registry (value : list Z) (t1 t2 : jsstring) (st : State) :
  let line := parsePacket value in
  let st' := handleNotification value t1 t2 st in
  includes (lit "INIT_OK") line || includes (lit "SCAN_STARTED") line = true ->
  startsWith BLE_RAW line = false ->
  startsWith SCAN_FOUND line = false ->
  deviceStatus st' = StatusSuccess line
  /\ scanResults st' = []
  /\ evalDataRows (updateDeviceStatus line st) = evalDataRows st
  /\ (startsWith EVAL_STOP_OK line = false -> evalDataRows st' = evalDataRows st).
Proof.
  intros line st' I B S. subst st'.
  assert (N : parsePacket value <> []).
  { fold line. intros E. rewrite E in I. discriminate. }
  destruct (handleNotification_status value t1 t2 st N) as [A R].
  fold line in A, R.
  assert (U : forall s, updateDeviceStatus line s =
                        setDeviceStatus (StatusSuccess line)
                          (setScanResults (clearScanResults (scanResults s)) s)).
  { intros s. unfold updateDeviceStatus. now rewrite B, S, I. }
  split; [|split; [|split]].
  - rewrite A, U. reflexivity.
  - rewrite R, U. reflexivity.
  - apply updateDeviceStatus_frame.
  - intros E. rewrite handleNotification_payload by assumption.
    cbv zeta. fold line. rewrite E, U.
    destruct (startsWith MAN_TIMEOUT line); reflexivity.
Qed.

Lemma initOk_clears_scan_registry_witness :
  let value := encode (lit "#DM:SCAN:INIT_OK") ++ [13; 10] in
  let t := lit "10:00:00" in
  let st := mkState [BackRow t (Int 12) (Int 14) (Int 5)]
                    [mkScan (lit "AABBCCDDEEFF") (Int (-65)) (lit "Sensor1")]
                    StatusEmpty [] [] in
  parsePacket value = lit "#DM:SCAN:INIT_OK" /\
  deviceStatus (handleNotification value t t st) = StatusSuccess (lit "#DM:SCAN:INIT_OK") /\
  scanResults (handleNotification value t t st) = [] /\
  evalDataRows (handleNotification value t t st) = [BackRow t (Int 12) (Int 14) (Int 5)].
Proof.
  cbv zeta. split; [reflexivity|].
  destruct (initOk_clears_scan_registry
              (encode (lit "#DM:SCAN:INIT_OK") ++ [13; 10])
              (lit "10:00:00") (lit "10:00:00")
              (mkState [BackRow (lit "10:00:00") (Int 12) (Int 14) (Int 5)]
                       [mkScan (lit "AABBCCDDEEFF") (Int (-65)) (lit "Sensor1")]
                       StatusEmpty [] [])
              eq_refl eq_refl eq_refl) as (A & B & _ & C).
  split; [exact A|]. split; [exact B|]. exact (C eq_refl).
Defined.

(** C8 as stated fails at a line that holds [INIT_OK] and starts with
    [#EVAL:STOP:STOP_OK:]: no earlier rule matches, the registry is cleared
    and the success status shown, and a back row is appended to the
    evaluation history all the same. *)
Lemma initOk_line_can_append_eval_row :
  let line := lit "#EVAL:STOP:STOP_OK:INIT_OK,1,2" in
  let t := lit "10:00:00" in
  let st' := handleNotification (encode line) t t initialState in
  parsePacket (encode line) = line /\
  includes (lit "INIT_OK") line = true /\
  startsWith BLE_RAW line = false /\
  startsWith SCAN_FOUND line = false /\
  deviceStatus st' = StatusSuccess line /\
  scanResults st' = [] /\
  evalDataRows st' = [BackRow t NaN (Int 1) (Int 2)] /\
  evalDataRows st' <> evalDataRows initialState.
Proof.
  cbv zeta. repeat split; try reflexivity. vm_compute. discriminate.
Qed.

(* ====================================================================== *)
(** * The model on the literal lines of the protocol                       *)
(* ====================================================================== *)

Example parseInt_samples :
  parseInt (lit "-65") = Int (-65) /\ parseInt (lit " 42 ") = Int 42 /\
  parseInt (lit "12abc") = Int 12 /\ parseInt (lit "0x1F") = Int 31 /\
  parseInt (lit "abc") = NaN /\ parseInt (lit "") = NaN /\ parseInt (lit "-") = NaN.
Proof. repeat split; reflexivity. Qed.

(** Digit strings beyond 2^53 are rounded to the nearest double, ties to the
    even significand; a zero keeps the sign read; 2^1024 - 2^970 and beyond
    is an infinity. *)
Example parseInt_doubles :
  parseInt (lit "9007199254740993") = Int 9007199254740992
  /\ parseInt (lit "-9007199254740993") = Int (-9007199254740992)
  /\ parseInt (lit "9007199254740995") = Int 9007199254740996
  /\ parseInt (lit "18014398509481987") = Int 18014398509481988
  /\ parseInt (lit "0x20000000000001") = Int 9007199254740992
  /\ parseInt (lit "-0") = NegZero /\ parseInt (lit "0") = Int 0
  /\ parseInt (lit "1" ++ repeat 48 309%nat) = Infinity false
  /\ parseInt (lit "-1" ++ repeat 48 309%nat) = Infinity true.
Proof. vm_compute. repeat split; reflexivity. Qed.

Example split_samples :
  split 44 (lit "a,b,,c") = [lit "a"; lit "b"; lit ""; lit "c"] /\
  split 44 (lit "") = [lit ""] /\
  split 58 (lit "#DM:TYPE_FULL:2:4") = [lit "#DM"; lit "TYPE_FULL"; lit "2"; lit "4"].
Proof. repeat split; reflexivity. Qed.

Example decode_malformed_bytes :
  decode [192; 128; 65; 237; 160; 128; 226; 130]
  = [65533; 65533; 65; 65533; 65533; 65533; 65533].
Proof. reflexivity. Qed.

Example buildPacket_status_request :
  buildPacket (lit "$DM:STATUS:REQ")
  = Packet (encode (lit "$DM:STATUS:REQ") ++ [13; 10]).
Proof. reflexivity. Qed.

Example typeFull_line :
  deviceStatus (updateDeviceStatus (lit "#DM:TYPE_FULL:2:4") initialState)
  = StatusTypeFull (lit "2") (lit "4").
Proof. reflexivity. Qed.

Example scanFound_twice :
  let t := lit "10:00:00" in
  scanResults
    (receiveAll
       [(encode (lit "#DM:SCAN:FOUND:AABBCCDDEEFF,Sensor1,-65") ++ [13; 10], t, t);
        (encode (lit "#DM:SCAN:FOUND:AABBCCDDEEFF,Renamed,-70") ++ [13; 10], t, t)]
       initialState)
  = [mkScan (lit "AABBCCDDEEFF") (Int (-70)) (lit "Sensor1")].
Proof. reflexivity. Qed.

Example manTimeout_line :
  let t := lit "10:00:00" in
  receivedLog (handleNotification (encode (lit "#MAN:TIMEOUT") ++ [13; 10]) t t initialState)
  = [LogPayload t (lit "#MAN:TIMEOUT"); LogManualStopped].
Proof. reflexivity. Qed.

(* ====================================================================== *)
(** * The send path                                                        *)
(* ====================================================================== *)

Import Sender.

Section EncoderFacts.

Lemma to_scalars_cons2 (c d : Z) (s : jsstring) :
to_scalars (c :: d :: s) =
if isHighSurrogate c then
  if isLowSurrogate d
  then (65536 + (c - 55296) * 1024 + (d - 56320)) :: to_scalars s
  else REPLACEMENT :: to_scalars (d :: s)
else if isLowSurrogate c then REPLACEMENT :: to_scalars (d :: s)
else c :: to_scalars (d :: s).
Proof. reflexivity. Qed.

(** The conversion to scalar values splits at every place where the right
    part does not begin with a low surrogate. *)
Lemma to_scalars_app_any (s t : jsstring) :
match t with d :: _ => isLowSurrogate d = false | [] => True end ->
to_scalars (s ++ t) = to_scalars s ++ to_scalars t.
Proof.
intros Ht.
enough (H : to_scalars (s ++ t) = to_scalars s ++ to_scalars t /\
            forall c, to_scalars ((c :: s) ++ t) = to_scalars (c :: s) ++ to_scalars t)
  by apply H.
induction s as [|d s [IH1 IH2]].
- split; [reflexivity|]. intros c. cbn [app to_scalars].
  destruct (isHighSurrogate c).
  + destruct t as [|e t]; [reflexivity|]. rewrite Ht. reflexivity.
  + destruct (isLowSurrogate c); reflexivity.
- split; [apply IH2|]. intros c.
  change ((c :: d :: s) ++ t) with (c :: d :: (s ++ t)).
  rewrite !to_scalars_cons2.
  change (d :: s ++ t) with ((d :: s) ++ t).
  destruct (isHighSurrogate c).
  + destruct (isLowSurrogate d).
    * rewrite IH1. reflexivity.
    * rewrite IH2. reflexivity.
  + destruct (isLowSurrogate c); rewrite IH2; reflexivity.
Qed.

Lemma encode_app_CRLF (s : jsstring) : encode (s ++ CRLF) = encode s ++ [13; 10].
Proof.
unfold encode. rewrite to_scalars_app_any by reflexivity.
rewrite flat_map_app. reflexivity.
Qed.

Lemma encode_dollar (s : jsstring) : encode (36 :: s) = 36 :: encode s.
Proof. reflexivity. Qed.

Lemma endsWith_spec (p s : jsstring) :
endsWith p s = true <-> exists r, s = r ++ p.
Proof.
unfold endsWith. rewrite startsWith_spec. split.
- intros [r E]. exists (rev r).
  rewrite <- (rev_involutive s), E, rev_app_distr, rev_involutive. reflexivity.
- intros [r ->]. exists (rev r). apply rev_app_distr.
Qed.

(** Every packet [buildPacket] returns for a payload that begins with [$] is
    a frame of the wire format. *)
Lemma buildPacket_dollar_frame (command : jsstring) (packet : list Z) :
buildPacket (lit "$" ++ command) = Packet packet -> wireFrame packet.
Proof.
unfold buildPacket. change (lit "$" ++ command) with (36 :: command).
destruct (Nat.ltb_spec 64 (length (encode (terminated (36 :: command)))))
  as [L|L]; [discriminate|].
intros E. injection E as <-. split; [exact L|].
unfold terminated. destruct (endsWith CRLF (36 :: command)) eqn:W.
- apply endsWith_spec in W as [r Hr].
  destruct r as [|c r]; [discriminate|].
  injection Hr as Hc Hcmd. subst c command.
  change (36 :: r ++ CRLF) with ((36 :: r) ++ CRLF).
  rewrite encode_app_CRLF, encode_dollar. exists (encode r). reflexivity.
- rewrite encode_app_CRLF, encode_dollar. exists (encode command). reflexivity.
Qed.

End EncoderFacts.

Section SenderFacts.

Variable toUpperCase : jsstring -> jsstring.

(** What one call of [sendCommand] does to the packets written: nothing, or
    one frame more. *)
Lemma sendCommand_writeCalls (command t : jsstring) (e : option jsstring) (l : Link) :
writeCalls (sendCommand command t e l) = writeCalls l
\/ (isConnected l = true /\ hasWriteCharacteristic l = true /\
    exists packet,
      buildPacket (lit "$" ++ command) = Packet packet /\ wireFrame packet /\
      writeCalls (sendCommand command t e l) = writeCalls l ++ [packet]).
Proof.
unfold sendCommand.
destruct (isConnected l); [|left; reflexivity].
destruct (hasWriteCharacteristic l); [|left; reflexivity].
cbn [negb orb].
destruct (buildPacket (lit "$" ++ command)) as [packet|n] eqn:B; [|left; reflexivity].
right. split; [reflexivity|]. split; [reflexivity|].
exists packet. split; [reflexivity|].
split; [exact (buildPacket_dollar_frame command packet B)|].
destruct e; reflexivity.
Qed.

Lemma sendCommand_link (command t : jsstring) (e : option jsstring) (l : Link) :
isConnected (sendCommand command t e l) = isConnected l
/\ hasWriteCharacteristic (sendCommand command t e l) = hasWriteCharacteristic l.
Proof.
unfold sendCommand.
destruct (negb (isConnected l) || negb (hasWriteCharacteristic l));
  [split; reflexivity|].
destruct (buildPacket (lit "$" ++ command)); [|split; reflexivity].
destruct e; split; reflexivity.
Qed.

(** Every function of the send path, [disconnectBluetooth] apart, either
    raises an alert and leaves the rest of the link as it is, or is one call
    of [sendCommand]. *)
Lemma perform_cases (a : Action) (l : Link) :
(exists x, perform toUpperCase a l = alert x l)
\/ (exists command t e, perform toUpperCase a l = sendCommand command t e l)
\/ perform toUpperCase a l = disconnectBluetooth l.
Proof.
destruct a as [type t e|f i d checked t e|m loc t e|c t e|]; cbn [perform].
- unfold sendDeviceType. destruct type as [[|x ty]|];
    [left; eexists; reflexivity | right; left; do 3 eexists; reflexivity
     | left; eexists; reflexivity].
- unfold sendManualStart.
  destruct f; [left; eexists; reflexivity|].
  destruct i; [left; eexists; reflexivity|].
  destruct d; [left; eexists; reflexivity|].
  destruct (join (lit ",") checked);
    [left; eexists; reflexivity | right; left; do 3 eexists; reflexivity].
- unfold connectDevice. destruct (sendConnectDevice toUpperCase m loc);
    [left; eexists; reflexivity | left; eexists; reflexivity
     | right; left; do 3 eexists; reflexivity].
- unfold sendCustomCommand. destruct (trim c);
    [left; eexists; reflexivity | right; left; do 3 eexists; reflexivity].
- right; right; reflexivity.
Qed.

Lemma perform_writeCalls (a : Action) (l : Link) :
writeCalls (perform toUpperCase a l) = writeCalls l
\/ (isConnected l = true /\ hasWriteCharacteristic l = true /\
    exists packet,
      wireFrame packet /\ writeCalls (perform toUpperCase a l) = writeCalls l ++ [packet]).
Proof.
destruct (perform_cases a l) as [[x ->]|[(c & t & e & ->)| ->]].
- left; reflexivity.
- destruct (sendCommand_writeCalls c t e l) as [H|(C & W & p & _ & F & H)];
    [left; exact H | right; split; [exact C|]; split; [exact W|]; exists p; auto].
- left; reflexivity.
Qed.

Lemma perform_stays_disconnected (a : Action) (l : Link) :
isConnected l = false ->
isConnected (perform toUpperCase a l) = false.
Proof.
intros H. destruct (perform_cases a l) as [[x ->]|[(c & t & e & ->)| ->]].
- exact H.
- destruct (sendCommand_link c t e l) as [-> _]. exact H.
- reflexivity.
Qed.

End SenderFacts.

(** X1: whatever the command, [sendCommand] gives the transport nothing, or
    exactly one packet; it gives one only when the link is connected, and
    that packet is a frame of the wire format: at most 64 bytes, [$] first,
    CR LF last.  The same holds along any sequence of calls of the functions
    of the send path: the packets written are kept, and every packet added
    is such a frame. *)
Theorem sent_packets_are_frames (toUpperCase : jsstring -> jsstring)
  (actions : list Action) (l : Link) :
  (forall command t e,
     writeCalls (sendCommand command t e l) = writeCalls l
     \/ (isConnected l = true /\ hasWriteCharacteristic l = true /\
         exists packet,
           buildPacket (lit "$" ++ command) = Packet packet /\ wireFrame packet /\
           writeCalls (sendCommand command t e l) = writeCalls l ++ [packet]))
  /\ exists added,
       writeCalls (performAll toUpperCase actions l) = writeCalls l ++ added
       /\ Forall wireFrame added
       /\ (length added <= length actions)%nat.
Proof.
  split; [intros; apply sendCommand_writeCalls|].
  revert l. induction actions as [|a actions IH]; intros l.
  - exists []. rewrite app_nil_r. repeat split; [constructor | simpl; lia].
  - cbn [performAll fold_left]. fold (performAll toUpperCase actions (perform toUpperCase a l)).
    destruct (IH (perform toUpperCase a l)) as (added & E & F & L).
    destruct (perform_writeCalls toUpperCase a l) as [H|(_ & _ & p & Fp & H)].
    + exists added. rewrite E, H. repeat split; [assumption | simpl; lia].
    + exists (p :: added). rewrite E, H, <- app_assoc.
      repeat split; [constructor; assumption | simpl; lia].
Qed.

(** X2: once [disconnectBluetooth] has run, no sequence of calls of the
    functions of the send path gives the transport a packet, and the link
    stays disconnected. *)
Theorem nothing_sent_after_disconnect (toUpperCase : jsstring -> jsstring)
  (actions : list Action) (l : Link) :
  writeCalls (performAll toUpperCase actions (disconnectBluetooth l)) = writeCalls l
  /\ isConnected (performAll toUpperCase actions (disconnectBluetooth l)) = false.
Proof.
  assert (G : forall acts k, isConnected k = false ->
              writeCalls (performAll toUpperCase acts k) = writeCalls k
              /\ isConnected (performAll toUpperCase acts k) = false).
  { induction acts as [|a acts IH]; intros k H; [split; [reflexivity | exact H]|].
    cbn [performAll fold_left]. fold (performAll toUpperCase acts (perform toUpperCase a k)).
    destruct (IH (perform toUpperCase a k)
                 (perform_stays_disconnected toUpperCase a k H)) as [W C].
    rewrite W. split; [|exact C].
    destruct (perform_writeCalls toUpperCase a k) as [E|(T & _)]; [exact E | congruence]. }
  exact (G actions (disconnectBluetooth l) eq_refl).
Qed.

Section BuilderFacts.

(** Splitting undoes joining, for parts that do not hold the separator. *)
Lemma split_join (sep : Z) (parts : list jsstring) :
parts <> [] -> Forall (fun p => ~ In sep p) parts ->
split sep (join [sep] parts) = parts.
Proof.
induction parts as [|p parts IH]; [tauto|]. intros _ F.
inversion F as [|? ? Hp Hrest]; subst.
destruct parts as [|q parts].
- cbn [join]. now apply split_no_sep.
- change (join [sep] (p :: q :: parts)) with (p ++ sep :: join [sep] (q :: parts)).
  rewrite split_first by assumption. f_equal. apply IH; [discriminate | assumption].
Qed.

(** The joined text is empty for no part and for one empty part only. *)
Lemma join_nil_iff (sep : Z) (parts : list jsstring) :
join [sep] parts = [] <-> parts = [] \/ parts = [[]].
Proof.
destruct parts as [|p [|q parts]]; cbn [join].
- tauto.
- split; [intros ->; tauto | intros [H|H]; [discriminate | now injection H]].
- split; [|intros [H|H]; discriminate].
  intros H. apply app_eq_nil in H as [_ H]. discriminate.
Qed.

(** ** trim leaves a trimmed string alone *)

Lemma trimStart_idempotent (s : jsstring) : trimStart (trimStart s) = trimStart s.
Proof.
induction s as [|c s IH]; [reflexivity|]. cbn [trimStart].
destruct (isWhiteSpace c) eqn:E; [exact IH|]. cbn [trimStart]. now rewrite E.
Qed.

Lemma trimEnd_idempotent (s : jsstring) : trimEnd (trimEnd s) = trimEnd s.
Proof. unfold trimEnd. now rewrite rev_involutive, trimStart_idempotent. Qed.

Lemma trimEnd_cons_keep (c : Z) (s : jsstring) :
isWhiteSpace c = false -> trimEnd (c :: s) = c :: trimEnd s.
Proof.
intros H. unfold trimEnd. cbn [rev].
destruct (trimStart (rev s)) as [|d t] eqn:E.
- apply trimStart_nil_iff in E. rewrite (trimStart_ws_app (rev s) [c] E).
  cbn [trimStart]. now rewrite H.
- rewrite trimStart_app_keep by (rewrite E; discriminate).
  rewrite E, rev_app_distr. reflexivity.
Qed.

Lemma trim_dollar (s : jsstring) : trim (36 :: trim s) = 36 :: trim s.
Proof.
unfold trim at 1. cbn [trimStart]. change (isWhiteSpace 36) with false. cbv iota.
rewrite trimEnd_cons_keep by reflexivity. f_equal.
unfold trim. apply trimEnd_idempotent.
Qed.

Lemma trim_no_whitespace (s : jsstring) :
forallb (fun c => negb (isWhiteSpace c)) s = true -> trim s = s.
Proof.
induction s as [|c s IH]; [reflexivity|]. cbn [forallb].
intros H. apply andb_true_iff in H as [Hc Hs]. apply negb_true_iff in Hc.
unfold trim. cbn [trimStart]. rewrite Hc.
rewrite trimEnd_cons_keep by assumption. f_equal.
specialize (IH Hs). unfold trim in IH.
destruct s as [|d s]; [reflexivity|].
cbn [forallb] in Hs. apply andb_true_iff in Hs as [Hd _]. apply negb_true_iff in Hd.
cbn [trimStart] in IH. rewrite Hd in IH. exact IH.
Qed.

End BuilderFacts.

(** X3: when the frequency, the intensity and the duration are not empty,
    at least one location box is checked, the checked boxes are not one
    single box with an empty value (their values joined with commas would be
    the empty string, which the source refuses), and neither the three
    fields nor the values of the checked boxes hold a comma, then
    [sendManualStart] calls [sendCommand] with a command that starts with
    [MAN:START:] and whose comma-separated fields after it are the
    frequency, the intensity, the duration and the checked locations in
    their order. *)
Theorem sendManualStart_fields
  (freq intensity duration : jsstring) (checked : list jsstring)
  (t : jsstring) (e : option jsstring) (l : Link) :
  freq <> [] -> intensity <> [] -> duration <> [] ->
  checked <> [] -> checked <> [[]] ->
  Forall (fun p => ~ In 44 p) (freq :: intensity :: duration :: checked) ->
  let command := manualStartCommand freq intensity duration (join (lit ",") checked) in
  sendManualStart freq intensity duration checked t e l = sendCommand command t e l
  /\ startsWith (lit "MAN:START:") command = true
  /\ split 44 (substring 10 command) = freq :: intensity :: duration :: checked.
Proof.
  intros Hf Hi Hd Hc Hc' F command.
  inversion F as [|? ? Ff F1]; subst. inversion F1 as [|? ? Fi F2]; subst.
  inversion F2 as [|? ? Fd Fc]; subst.
  split; [|split].
  - unfold sendManualStart.
    destruct freq; [tauto|]. destruct intensity; [tauto|]. destruct duration; [tauto|].
    destruct (join (lit ",") checked) eqn:J; [|reflexivity].
    apply (join_nil_iff 44) in J. tauto.
  - apply startsWith_app.
  - unfold command, manualStartCommand, substring.
    change (lit ",") with [44].
    change (skipn 10 (lit "MAN:START:" ++ ?x)) with x. cbn [app].
    rewrite split_first by assumption. rewrite split_first by assumption.
    rewrite split_first by assumption. now rewrite split_join.
Qed.

Lemma sendManualStart_fields_witness :
  let command := lit "MAN:START:40,3,10,L1,R2" in
  let l := mkLink true true [] [] [] in
  sendManualStart (lit "40") (lit "3") (lit "10") [lit "L1"; lit "R2"]
    (lit "10:00:00") None l
  = sendCommand command (lit "10:00:00") None l
  /\ split 44 (substring 10 command) = [lit "40"; lit "3"; lit "10"; lit "L1"; lit "R2"]
  /\ writeCalls (sendCommand command (lit "10:00:00") None l)
     = [encode (lit "$MAN:START:40,3,10,L1,R2") ++ [13; 10]].
Proof.
  cbv zeta.
  destruct (sendManualStart_fields (lit "40") (lit "3") (lit "10") [lit "L1"; lit "R2"]
              (lit "10:00:00") None (mkLink true true [] [] []))
    as (A & _ & B); try discriminate.
  - repeat constructor; simpl; intuition discriminate.
  - split; [exact A|]. split; [exact B | reflexivity].
Defined.

(** X4: [sendManualStart] refuses with the fields alert exactly when the
    frequency, the intensity or the duration is empty; with all three given
    it refuses with the location alert exactly when no box is checked or the
    only checked box has the empty value, and calls [sendCommand] otherwise:
    two checked boxes with empty values are sent as the location list [,]. *)
Theorem sendManualStart_refusals
  (freq intensity duration : jsstring) (checked : list jsstring)
  (t : jsstring) (e : option jsstring) (l : Link) :
  (freq = [] \/ intensity = [] \/ duration = [] ->
   sendManualStart freq intensity duration checked t e l = alert AlertManualFields l)
  /\ (freq <> [] /\ intensity <> [] /\ duration <> [] ->
      (checked = [] \/ checked = [[]] ->
       sendManualStart freq intensity duration checked t e l
       = alert AlertManualLocation l)
      /\ (checked <> [] -> checked <> [[]] ->
          sendManualStart freq intensity duration checked t e l
          = sendCommand
              (manualStartCommand freq intensity duration (join (lit ",") checked))
              t e l))
  /\ sendManualStart (lit "40") (lit "3") (lit "10") [[]; []] t e l
     = sendCommand (lit "MAN:START:40,3,10,,") t e l.
Proof.
  unfold sendManualStart. split; [|split].
  - intros [->|[->| ->]]; [reflexivity | destruct freq; reflexivity
                           | destruct freq; [|destruct intensity]; reflexivity].
  - intros (Hf & Hi & Hd).
    destruct freq; [tauto|]. destruct intensity; [tauto|]. destruct duration; [tauto|].
    split.
    + intros H. apply (join_nil_iff 44) in H. change (lit ",") with [44]. now rewrite H.
    + intros H1 H2. destruct (join (lit ",") checked) eqn:J; [|reflexivity].
      apply (join_nil_iff 44) in J. tauto.
  - reflexivity.
Qed.

(** X5: [sendCustomCommand] sends the trimmed text of the field: on a
    connected link, for a field whose trimmed text is not empty, is
    well-formed and fits (its UTF-8 bytes, the [$] and the CR LF within 64
    bytes), with a write that resolves, exactly one packet is written, the
    packet decodes with [parsePacket] to [$] followed by the trimmed text,
    and that line and the packet are logged; a field of white space only
    raises the alert and writes nothing. *)
Theorem sendCustomCommand_roundtrip (customCmd t : jsstring) (l : Link) :
  isConnected l = true -> hasWriteCharacteristic l = true ->
  trim customCmd <> [] ->
  wellFormed (trim customCmd) = true ->
  (length (encode (trim customCmd)) + 3 <= 64)%nat ->
  (exists packet,
     writeCalls (sendCustomCommand customCmd t None l) = writeCalls l ++ [packet]
     /\ parsePacket packet = lit "$" ++ trim customCmd
     /\ sentLog (sendCustomCommand customCmd t None l)
        = sentLog l ++ [SentCommand t (lit "$" ++ trim customCmd); SentPacket packet]
     /\ alerts (sendCustomCommand customCmd t None l) = alerts l)
  /\ forall blank e,
       forallb isWhiteSpace blank = true ->
       sendCustomCommand blank t e l = alert AlertEnterCommand l.
Proof.
  intros C W N Hwf Hlen. split.
  - set (cmd := trim customCmd) in *.
    assert (Wd : wellFormed (36 :: cmd) = true) by (cbn [wellFormed]; exact Hwf).
    assert (B : buildPacket (lit "$" ++ cmd) = Packet (encode (terminated (36 :: cmd)))).
    { unfold buildPacket. change (lit "$" ++ cmd) with (36 :: cmd).
      pose proof (length_encode_terminated (36 :: cmd) Wd) as L.
      rewrite encode_dollar in L. cbn [length] in L.
      destruct (Nat.ltb_spec 64 (length (encode (terminated (36 :: cmd)))));
        [lia | reflexivity]. }
    exists (encode (terminated (36 :: cmd))).
    assert (E : sendCustomCommand customCmd t None l = sendCommand cmd t None l).
    { unfold sendCustomCommand. fold cmd. destruct cmd; [tauto | reflexivity]. }
    rewrite E. unfold sendCommand. rewrite C, W, B. cbn [negb orb].
    split; [reflexivity|].
    split; [|split; [cbn [sentLog logSent writeValue]; now rewrite <- app_assoc
                    | reflexivity]].
    unfold parsePacket.
    rewrite decode_encode by now apply wellFormed_terminated.
    rewrite trim_withoutBOM, trim_terminated. apply trim_dollar.
  - intros blank e H. unfold sendCustomCommand. now rewrite (trim_all_ws blank H).
Qed.

Lemma sendCustomCommand_roundtrip_witness :
  let l := mkLink true true [] [] [] in
  let field := lit "  DM:STATUS:REQ " in
  (trim field <> [] /\ wellFormed (trim field) = true
   /\ (length (encode (trim field)) + 3 <= 64)%nat)
  /\ exists packet,
       writeCalls (sendCustomCommand field (lit "10:00:00") None l) = [packet]
       /\ parsePacket packet = lit "$DM:STATUS:REQ".
Proof.
  cbv zeta.
  assert (N : trim (lit "  DM:STATUS:REQ ") <> []) by (vm_compute; discriminate).
  assert (L : (length (encode (trim (lit "  DM:STATUS:REQ "))) + 3 <= 64)%nat)
    by (vm_compute; lia).
  split; [split; [exact N | split; [reflexivity | exact L]]|].
  destruct (sendCustomCommand_roundtrip (lit "  DM:STATUS:REQ ") (lit "10:00:00")
              (mkLink true true [] [] []) eq_refl eq_refl N eq_refl L)
    as [(packet & A & B & _) _].
  exists packet. split; [exact A | exact B].
Defined.

Section MacFacts.

Variable toUpperCase : jsstring -> jsstring.
Hypothesis toUpperCase_ascii :
  forall s, Forall isAscii s -> toUpperCase s = map asciiUpper s.

Lemma hex_not_whitespace (s : jsstring) :
Forall isHexDigit s -> forallb (fun c => negb (isWhiteSpace c)) s = true.
Proof.
intros F. apply forallb_forall. intros c Hc.
rewrite Forall_forall in F. specialize (F c Hc). unfold isHexDigit in F.
apply negb_true_iff. unfold isWhiteSpace.
repeat (apply orb_false_iff; split); try (apply Z.eqb_neq; lia);
  apply andb_false_iff; destruct F; ((left; apply Z.leb_gt; lia) || (right; apply Z.leb_gt; lia)).
Qed.

Lemma hex_upper_fixed (s : jsstring) :
Forall isHexDigit s -> toUpperCase s = s.
Proof.
intros F. rewrite toUpperCase_ascii.
- induction F as [|c s Hc _ IH]; [reflexivity|]. cbn [map]. rewrite IH. f_equal.
  unfold asciiUpper, isHexDigit in *.
  destruct (Z.leb_spec 97 c); [|reflexivity]. exfalso. lia.
- apply Forall_impl with (2 := F). unfold isHexDigit, isAscii. lia.
Qed.

Lemma hex_no_separator (s : jsstring) :
Forall isHexDigit s -> remove_all isSeparator s = s.
Proof.
induction 1 as [|c s Hc _ IH]; [reflexivity|].
unfold remove_all in *. cbn [filter]. unfold isHexDigit in Hc.
replace (isSeparator c) with false; [cbn [negb]; now rewrite IH|].
symmetry. unfold isSeparator. apply orb_false_iff; split; apply Z.eqb_neq; lia.
Qed.

Lemma cleanMacOf_hex (mac : jsstring) :
Forall isHexDigit mac -> cleanMacOf toUpperCase mac = mac.
Proof.
intros F. unfold cleanMacOf.
rewrite trim_no_whitespace by now apply hex_not_whitespace.
rewrite hex_upper_fixed by assumption. now apply hex_no_separator.
Qed.

End MacFacts.

(** X6: for every [toUpperCase] that is the ASCII uppercase map on ASCII
    strings, a MAC of twelve characters of [0-9A-F], such as the one
    [selectScanResult] copies from a scan record, is sent as it stands; and
    on a field that is accepted, that is one that reduces to twelve
    characters of [0-9A-F], reducing the reduced form again changes nothing,
    so the field and its reduced form entered again give the same command.
    On other fields the reduction need not be idempotent, since white space
    is trimmed before the separators are removed: [: a] reduces to [ A], and
    that to [A]. *)
Theorem sendConnectDevice_canonical (toUpperCase : jsstring -> jsstring) :
  (forall s, Forall isAscii s -> toUpperCase s = map asciiUpper s) ->
  (forall mac location,
     length mac = 12%nat -> Forall isHexDigit mac ->
     sendConnectDevice toUpperCase mac location
     = SendCommand (lit "DM:CONN:" ++ mac ++ lit ":" ++ location))
  /\ (forall rawMac location,
        reducesToMac toUpperCase rawMac ->
        cleanMacOf toUpperCase (cleanMacOf toUpperCase rawMac)
        = cleanMacOf toUpperCase rawMac
        /\ sendConnectDevice toUpperCase (cleanMacOf toUpperCase rawMac) location
           = sendConnectDevice toUpperCase rawMac location)
  /\ (cleanMacOf toUpperCase (lit ": a") = lit " A"
      /\ cleanMacOf toUpperCase (lit " A") = lit "A").
Proof.
  intros Hup.
  assert (A : forall mac location,
             length mac = 12%nat -> Forall isHexDigit mac ->
             sendConnectDevice toUpperCase mac location
             = SendCommand (lit "DM:CONN:" ++ mac ++ lit ":" ++ location)).
  { intros mac location L F.
    pose proof (cleanMacOf_hex toUpperCase Hup mac F) as E.
    destruct (sendConnectDevice_cases toUpperCase mac location) as (_ & _ & H).
    rewrite H; [now rewrite E|]. unfold reducesToMac. now rewrite E. }
  split; [exact A|]. split.
  - intros rawMac location [L F]. split.
    + now apply cleanMacOf_hex.
    + rewrite (A _ location L F).
      destruct (sendConnectDevice_cases toUpperCase rawMac location) as (_ & _ & H).
      symmetry. apply H. split; assumption.
  - unfold cleanMacOf.
    change (trim (lit ": a")) with (lit ": a").
    change (trim (lit " A")) with (lit "A").
    rewrite !Hup by (repeat constructor; unfold isAscii; simpl; lia).
    split; reflexivity.
Qed.

Lemma sendConnectDevice_canonical_witness :
  (forall s, Forall isAscii s -> map asciiUpper s = map asciiUpper s)
  /\ sendConnectDevice (map asciiUpper) (lit "AABBCCDDEEFF") (lit "L1")
     = SendCommand (lit "DM:CONN:AABBCCDDEEFF:L1")
  /\ sendConnectDevice (map asciiUpper)
       (cleanMacOf (map asciiUpper) (lit " aa-bb-cc-dd-ee-ff ")) (lit "L1")
     = sendConnectDevice (map asciiUpper) (lit " aa-bb-cc-dd-ee-ff ") (lit "L1").
Proof.
  split; [reflexivity|].
  destruct (sendConnectDevice_canonical (map asciiUpper) (fun s _ => eq_refl))
    as (A & B & _).
  split.
  - apply A; [reflexivity|].
    repeat constructor; unfold isHexDigit; simpl; lia.
  - apply B. split; [reflexivity|].
    change (cleanMacOf (map asciiUpper) (lit " aa-bb-cc-dd-ee-ff "))
      with (lit "AABBCCDDEEFF").
    repeat constructor; unfold isHexDigit; simpl; lia.
Defined.

(* ====================================================================== *)
(** * The receive path along a run                                         *)
(* ====================================================================== *)

Section RunFacts.

Lemma handleEvalStopData_appends (message t : jsstring) (st : State) :
(exists row,
   evalDataRows (handleEvalStopData message t st) = evalDataRows st ++ [row]
   /\ receivedLog (handleEvalStopData message t st) = receivedLog st ++ [LogEvalAdded])
\/ (evalDataRows (handleEvalStopData message t st) = evalDataRows st
    /\ receivedLog (handleEvalStopData message t st) = receivedLog st).
Proof.
unfold handleEvalStopData.
destruct (matchEvalStop message) as [data|]; [|right; split; reflexivity].
destruct (map (fun s => parseInt (trim s)) (split 44 data))
  as [|p0 [|p1 [|p2 [|p3 [|p4 [|p5 ps]]]]]];
  try (right; split; reflexivity); left; eexists; split; reflexivity.
Qed.

(** One notification: at most one row more, none unless the payload starts
    with [#EVAL:STOP:STOP_OK:], and one or two lines more in the log. *)
Lemma handleNotification_appends (value : list Z) (t1 t2 : jsstring) (st : State) :
exists rows lines,
  evalDataRows (handleNotification value t1 t2 st) = evalDataRows st ++ rows
  /\ (length rows <= 1)%nat
  /\ (startsWith EVAL_STOP_OK (parsePacket value) = false -> rows = [])
  /\ receivedLog (handleNotification value t1 t2 st) = receivedLog st ++ lines
  /\ (1 <= length lines <= 2)%nat.
Proof.
destruct (parsePacket value) as [|c p] eqn:E.
- exists [], [LogParseFailed]. unfold handleNotification. rewrite E.
  cbn [evalDataRows receivedLog logReceived]. rewrite app_nil_r.
  repeat split; simpl; auto; lia.
- assert (N : parsePacket value <> []) by (rewrite E; discriminate).
  rewrite handleNotification_payload by assumption. cbv zeta. rewrite E.
  set (line := c :: p).
  set (st1 := logReceived (LogPayload t1 line) st).
  destruct (updateDeviceStatus_frame line st1) as (Fe & Fl & _).
  change (evalDataRows st1) with (evalDataRows st) in Fe.
  change (receivedLog st1) with (receivedLog st ++ [LogPayload t1 line]) in Fl.
  destruct (startsWith EVAL_STOP_OK line) eqn:S.
  + rewrite (evalStop_not_manTimeout line S).
    destruct (handleEvalStopData_appends line t2 (updateDeviceStatus line st1))
      as [(row & A & B)|(A & B)].
    * exists [row], [LogPayload t1 line; LogEvalAdded].
      rewrite A, B, Fe, Fl, <- app_assoc.
      repeat split; simpl; auto; try lia; try discriminate.
    * exists [], [LogPayload t1 line].
      rewrite A, B, Fe, Fl, app_nil_r. repeat split; simpl; auto; lia.
  + destruct (startsWith MAN_TIMEOUT line).
    * exists [], [LogPayload t1 line; LogManualStopped].
      cbn [evalDataRows receivedLog logReceived].
      rewrite Fe, Fl, app_nil_r, <- app_assoc. repeat split; simpl; auto; lia.
    * exists [], [LogPayload t1 line].
      rewrite Fe, Fl, app_nil_r. repeat split; simpl; auto; lia.
Qed.

End RunFacts.

(** X7: the receive path only ever appends to the evaluation history and to
    the received log.  One notification adds at most one row, and none
    unless its payload starts with [#EVAL:STOP:STOP_OK:], and it adds one or
    two log lines; after any sequence of notifications the history is the old
    one followed by at most one row per notification, and the log the old
    one followed by at least one and at most two lines per notification. *)
Theorem receive_only_appends
  (events : list (list Z * jsstring * jsstring)) (st : State) :
  (forall value t1 t2,
     exists rows lines,
       evalDataRows (handleNotification value t1 t2 st) = evalDataRows st ++ rows
       /\ (length rows <= 1)%nat
       /\ (startsWith EVAL_STOP_OK (parsePacket value) = false -> rows = [])
       /\ receivedLog (handleNotification value t1 t2 st) = receivedLog st ++ lines
       /\ (1 <= length lines <= 2)%nat)
  /\ exists rows lines,
       evalDataRows (receiveAll events st) = evalDataRows st ++ rows
       /\ (length rows <= length events)%nat
       /\ receivedLog (receiveAll events st) = receivedLog st ++ lines
       /\ (length events <= length lines <= 2 * length events)%nat.
Proof.
  split; [intros; apply handleNotification_appends|].
  revert st. induction events as [|[[value t1] t2] events IH]; intros st.
  - exists [], []. rewrite !app_nil_r. repeat split; simpl; lia.
  - cbn [receiveAll fold_left].
    fold (receiveAll events (handleNotification value t1 t2 st)).
    destruct (IH (handleNotification value t1 t2 st)) as (rows & lines & A & B & C & D).
    destruct (handleNotification_appends value t1 t2 st)
      as (r1 & l1 & A1 & B1 & _ & C1 & D1).
    exists (r1 ++ rows), (l1 ++ lines).
    rewrite A, A1, C, C1, <- !app_assoc, !length_app.
    repeat split; simpl; lia.
Qed.

(* ====================================================================== *)
(** * The rules of updateDeviceStatus                                      *)
(* ====================================================================== *)

Import Rules.

(** X8: the scan registry changes only on scan lines and on the two clearing
    markers: a received line that starts with [#BLE:RAW:], whatever it holds,
    leaves [scanResults] as it was, and so does every line that neither
    starts with [#DM:SCAN:FOUND:] nor holds [INIT_OK] or [SCAN_STARTED]. *)
Theorem registry_changes_only_on_scan_lines
  (value : list Z) (t1 t2 : jsstring) (st : State) :
  let line := parsePacket value in
  let st' := handleNotification value t1 t2 st in
  (startsWith BLE_RAW line = true -> scanResults st' = scanResults st)
  /\ (startsWith SCAN_FOUND line = false ->
      includes (lit "INIT_OK") line = false ->
      includes (lit "SCAN_STARTED") line = false ->
      scanResults st' = scanResults st).
Proof.
  intros line st'. subst st'.
  destruct (parsePacket value) as [|c p] eqn:E.
  - unfold handleNotification. rewrite E. split; reflexivity.
  - assert (N : parsePacket value <> []) by (rewrite E; discriminate).
    destruct (handleNotification_status value t1 t2 st N) as [_ R].
    rewrite R, E. fold line. clear R. split.
    + intros B. unfold updateDeviceStatus. rewrite B. reflexivity.
    + intros S I1 I2. unfold updateDeviceStatus. rewrite S, I1, I2.
      cbn [orb].
      repeat match goal with
             | |- context [if ?c then _ else _] => destruct c
             end; reflexivity.
Qed.

Section KindFacts.

Lemma bleKind_Ok (rawResp : jsstring) : bleKind rawResp = BleOk <-> rawResp = lit "+OK".
Proof.
unfold bleKind. destruct (streq rawResp (lit "+OK")) eqn:E.
- apply streq_spec in E. tauto.
- split.
  + repeat match goal with
           | |- context [if ?c then _ else _] => destruct c
           end; discriminate.
  + intros H. apply streq_spec in H. congruence.
Qed.

Lemma bleKind_Conn (rawResp : jsstring) :
bleKind rawResp = BleConn <-> startsWith (lit "+CONN") rawResp = true.
Proof.
unfold bleKind. split.
- repeat match goal with
         | |- context [if ?c then _ else _] => destruct c eqn:?
         end; (discriminate || auto).
- intros H. pose proof H as H'. apply startsWith_spec in H' as [r ->].
  rewrite H. reflexivity.
Qed.

Lemma bleKind_Disconn (rawResp : jsstring) :
bleKind rawResp = BleDisconn <-> startsWith (lit "+DISCONN") rawResp = true.
Proof.
unfold bleKind. split.
- repeat match goal with
         | |- context [if ?c then _ else _] => destruct c eqn:?
         end; (discriminate || auto).
- intros H. pose proof H as H'. apply startsWith_spec in H' as [r ->].
  rewrite H. reflexivity.
Qed.

End KindFacts.

(** X9: a line that starts with [#BLE:RAW:] is always shown as a BLE master
    response carrying the rest of the line, whatever markers that rest
    holds, and nothing else of the state changes.  The kind shown is the
    connect one exactly when the rest starts with [+CONN], the disconnect
    one exactly when it starts with [+DISCONN], and the OK one exactly when
    it is [+OK]: no case hides another. *)
Theorem bleRaw_line_status (rest : jsstring) (st : State) :
  updateDeviceStatus (BLE_RAW ++ rest) st
  = setDeviceStatus (StatusBleMaster (bleKind rest) rest) st
  /\ (bleKind rest = BleOk <-> rest = lit "+OK")
  /\ (bleKind rest = BleConn <-> startsWith (lit "+CONN") rest = true)
  /\ (bleKind rest = BleDisconn <-> startsWith (lit "+DISCONN") rest = true).
Proof.
  split; [|split; [apply bleKind_Ok | split; [apply bleKind_Conn | apply bleKind_Disconn]]].
  unfold updateDeviceStatus. rewrite startsWith_app.
  unfold substring. rewrite skipn_app, skipn_all, Nat.sub_diag. reflexivity.
Qed.

(** X10: which lines are shown as an error and which as a success.  The
    error status is written exactly for the lines that start with [#ERR] and
    hold no marker; the success status exactly for the lines that start with
    neither [#BLE:RAW:] nor [#DM:SCAN:FOUND:] and either hold [INIT_OK] or
    [SCAN_STARTED], or start with [#] but not [#ERR] and hold no marker.  So a
    line that starts with [#ERR] and holds [INIT_OK] is shown as a success. *)
Theorem error_and_success_lines (message : jsstring) (st : State) :
  let h := deviceStatus (updateDeviceStatus message st) in
  (h = StatusError message <->
   startsWith (lit "#ERR") message && noMarker message = true)
  /\ (h = StatusSuccess message <->
      negb (hasEarlyPrefix message)
      && (includes (lit "INIT_OK") message || includes (lit "SCAN_STARTED") message
          || (startsWith (lit "#") message && negb (startsWith (lit "#ERR") message)
              && noMarker message)) = true).
Proof.
  intros h. subst h. unfold updateDeviceStatus, noMarker, hasEarlyPrefix.
  destruct (startsWith BLE_RAW message) eqn:B.
  { assert (E : startsWith (lit "#ERR") message = false)
      by (apply startsWith_spec in B as [r ->]; reflexivity).
    rewrite E. simpl. split; split; discriminate. }
  destruct (startsWith SCAN_FOUND message) eqn:S.
  { assert (E : startsWith (lit "#ERR") message = false)
      by (apply startsWith_spec in S as [r ->]; reflexivity).
    rewrite E.
    destruct (3 <=? length (split 44 (substring (length SCAN_FOUND) message)))%nat;
      simpl; split; split; discriminate. }
  cbn [orb negb andb].
  destruct (includes (lit "INIT_OK") message);
    [cbn [orb negb andb]; rewrite ?andb_false_r; simpl; split; split;
     (discriminate || reflexivity)|].
  destruct (includes (lit "SCAN_STARTED") message);
    [cbn [orb negb andb]; rewrite ?andb_false_r; simpl; split; split;
     (discriminate || reflexivity)|].
  cbn [orb negb andb].
  destruct (includes (lit "DUP_MAC:") message);
    [cbn [orb negb andb]; rewrite ?andb_false_r; simpl; split; split; discriminate|].
  destruct (includes (lit "DUP_LOC:") message);
    [cbn [orb negb andb]; rewrite ?andb_false_r; simpl; split; split; discriminate|].
  destruct (includes (lit "LOC_NOT_ALLOWED:") message);
    [cbn [orb negb andb]; rewrite ?andb_false_r; simpl; split; split; discriminate|].
  destruct (includes (lit "TYPE_FULL:") message);
    [cbn [orb negb andb]; rewrite ?andb_false_r; simpl; split; split; discriminate|].
  destruct (includes (lit "NO_TYPE") message);
    [cbn [orb negb andb]; rewrite ?andb_false_r; simpl; split; split; discriminate|].
  destruct (includes (lit "SLOT_FULL:") message);
    [cbn [orb negb andb]; rewrite ?andb_false_r; simpl; split; split; discriminate|].
  cbn [orb negb andb].
  destruct (startsWith (lit "#ERR") message) eqn:Er.
  { rewrite (err_hash _ Er). simpl. split; split; (discriminate || reflexivity). }
  destruct (startsWith (lit "#") message); simpl; split; split;
    (discriminate || reflexivity).
Qed.

(** X11: the fields of the marker lines are read by position in the whole
    line.  For a line made of colon-free segments joined by [:], that starts
    with neither early prefix and holds neither clearing marker, the status
    of the first marker found carries the third and the fourth segment of
    the line, wherever the marker stands, with the defaults [unknown], [?]
    and [8] for a segment that is not there; the markers are tried in the
    order DUP_MAC, DUP_LOC, LOC_NOT_ALLOWED, TYPE_FULL, NO_TYPE, SLOT_FULL. *)
Theorem marker_fields_by_position (segs : list jsstring) (st : State) :
  segs <> [] ->
  Forall (fun p => ~ In 58 p) segs ->
  let line := join (lit ":") segs in
  let h := deviceStatus (updateDeviceStatus line st) in
  let third d := nth 2 segs d in
  let fourth d := nth 3 segs d in
  hasEarlyPrefix line = false ->
  includes (lit "INIT_OK") line = false ->
  includes (lit "SCAN_STARTED") line = false ->
  (includes (lit "DUP_MAC:") line = true ->
   h = StatusDuplicateMac (third (lit "unknown")) (fourth (lit "unknown")))
  /\ (includes (lit "DUP_MAC:") line = false ->
      (includes (lit "DUP_LOC:") line = true ->
       h = StatusDuplicateLocation (third (lit "unknown")) (fourth (lit "unknown")))
      /\ (includes (lit "DUP_LOC:") line = false ->
          (includes (lit "LOC_NOT_ALLOWED:") line = true ->
           h = StatusLocationNotAllowed (third (lit "unknown")) (fourth (lit "unknown")))
          /\ (includes (lit "LOC_NOT_ALLOWED:") line = false ->
              (includes (lit "TYPE_FULL:") line = true ->
               h = StatusTypeFull (third (lit "?")) (fourth (lit "?")))
              /\ (includes (lit "TYPE_FULL:") line = false ->
                  (includes (lit "NO_TYPE") line = true -> h = StatusNoType)
                  /\ (includes (lit "NO_TYPE") line = false ->
                      includes (lit "SLOT_FULL:") line = true ->
                      h = StatusSlotFull (third (lit "8"))))))).
Proof.
  intros N F line h third fourth E I1 I2.
  assert (Sp : split 58 line = segs) by (apply split_join; assumption).
  unfold hasEarlyPrefix in E. apply orb_false_iff in E as [B S].
  subst h. unfold updateDeviceStatus. rewrite B, S, I1, I2. cbn [orb].
  unfold part_or. rewrite Sp.
  split; [intros ->; reflexivity|]. intros ->.
  split; [intros ->; reflexivity|]. intros ->.
  split; [intros ->; reflexivity|]. intros ->.
  split; [intros ->; reflexivity|]. intros ->.
  split; [intros ->; reflexivity|]. intros -> ->. reflexivity.
Qed.

Lemma marker_fields_by_position_witness :
  let status segs := deviceStatus (updateDeviceStatus (join (lit ":") segs) initialState) in
  status [lit "#DM"; lit "DUP_MAC"; lit "AABBCCDDEEFF"; lit "L1"]
  = StatusDuplicateMac (lit "AABBCCDDEEFF") (lit "L1")
  /\ status [lit "#ERR"; lit "CONN"; lit "DUP_MAC"; lit "AABBCCDDEEFF"; lit "L1"]
     = StatusDuplicateMac (lit "DUP_MAC") (lit "AABBCCDDEEFF")
  /\ status [lit "DUP_MAC"; lit ""] = StatusDuplicateMac (lit "unknown") (lit "unknown")
  /\ status [lit "#DM"; lit "SLOT_FULL"; lit ""]
     = StatusSlotFull (lit "").
Proof.
  cbv zeta.
  assert (C : forall segs, forallb (fun p => negb (existsb (Z.eqb 58) p)) segs = true ->
              Forall (fun p => ~ In 58 p) segs).
  { intros segs H. apply Forall_forall. intros p Hp.
    rewrite forallb_forall in H. specialize (H p Hp). apply negb_true_iff in H.
    intros Hin. assert (existsb (Z.eqb 58) p = true); [|congruence].
    apply existsb_exists. exists 58. split; [assumption | reflexivity]. }
  assert (D : forall (x : jsstring) xs, x :: xs <> []) by (intros; discriminate).
  split; [|split; [|split]].
  - destruct (marker_fields_by_position
                [lit "#DM"; lit "DUP_MAC"; lit "AABBCCDDEEFF"; lit "L1"] initialState
                (D _ _) (C [lit "#DM"; lit "DUP_MAC"; lit "AABBCCDDEEFF"; lit "L1"] eq_refl) eq_refl eq_refl eq_refl) as [H _].
    exact (H eq_refl).
  - destruct (marker_fields_by_position
                [lit "#ERR"; lit "CONN"; lit "DUP_MAC"; lit "AABBCCDDEEFF"; lit "L1"]
                initialState (D _ _) (C [lit "#ERR"; lit "CONN"; lit "DUP_MAC"; lit "AABBCCDDEEFF"; lit "L1"] eq_refl) eq_refl eq_refl eq_refl) as [H _].
    exact (H eq_refl).
  - destruct (marker_fields_by_position [lit "DUP_MAC"; lit ""] initialState
                (D _ _) (C [lit "DUP_MAC"; lit ""] eq_refl) eq_refl eq_refl eq_refl) as [H _].
    exact (H eq_refl).
  - destruct (marker_fields_by_position [lit "#DM"; lit "SLOT_FULL"; lit ""] initialState
                (D _ _) (C [lit "#DM"; lit "SLOT_FULL"; lit ""] eq_refl) eq_refl eq_refl eq_refl) as [_ H].
    destruct (H eq_refl) as [_ H1]. destruct (H1 eq_refl) as [_ H2].
    destruct (H2 eq_refl) as [_ H3]. destruct (H3 eq_refl) as [_ H4].
    exact (H4 eq_refl eq_refl).
Defined.

Section TrimFacts.

Lemma trimStart_head (s r : jsstring) (c : Z) :
trimStart s = c :: r -> isWhiteSpace c = false.
Proof.
induction s as [|d s IH]; [discriminate|]. cbn [trimStart].
destruct (isWhiteSpace d) eqn:E; [exact IH|]. intros H. injection H as -> _. exact E.
Qed.

Lemma trimStart_fixed (s : jsstring) :
match s with c :: _ => isWhiteSpace c = false | [] => True end -> trimStart s = s.
Proof. destruct s as [|c s]; [reflexivity|]. cbn [trimStart]. now intros ->. Qed.

Lemma trim_head (s r : jsstring) (c : Z) :
trim s = c :: r -> isWhiteSpace c = false.
Proof.
unfold trim. destruct (trimStart s) as [|d u] eqn:E; [discriminate|].
pose proof (trimStart_head s u d E) as Hd.
rewrite trimEnd_cons_keep by assumption. intros H. injection H as -> _. exact Hd.
Qed.

Lemma trim_last (s : jsstring) (d : Z) :
trim s <> [] -> isWhiteSpace (last (trim s) d) = false.
Proof.
unfold trim, trimEnd. intros N.
destruct (trimStart (rev (trimStart s))) as [|c r] eqn:E; [tauto|].
cbn [rev]. rewrite last_last. exact (trimStart_head _ _ _ E).
Qed.

Lemma trim_idempotent (s : jsstring) : trim (trim s) = trim s.
Proof.
unfold trim at 1. destruct (trim s) as [|c r] eqn:E; [reflexivity|].
rewrite trimStart_fixed by exact (trim_head s r c E).
rewrite <- E. unfold trim. apply trimEnd_idempotent.
Qed.

End TrimFacts.

(** X12: the payload [parsePacket] hands to the receive path is trimmed,
    whatever the bytes: it is empty or it neither begins nor ends with a
    white space or line terminator character (no CR or LF is left at its
    end), and trimming it again changes nothing. *)
Theorem parsePacket_is_trimmed (bytes : list Z) :
  trim (parsePacket bytes) = parsePacket bytes
  /\ (parsePacket bytes = []
      \/ exists c rest,
           parsePacket bytes = c :: rest
           /\ isWhiteSpace c = false
           /\ isWhiteSpace (last (parsePacket bytes) c) = false
           /\ last (parsePacket bytes) c <> 13
           /\ last (parsePacket bytes) c <> 10).
Proof.
  unfold parsePacket. split; [apply trim_idempotent|].
  destruct (trim (decode bytes)) as [|c rest] eqn:E; [left; reflexivity|].
  right. exists c, rest. split; [reflexivity|].
  assert (L : isWhiteSpace (last (c :: rest) c) = false).
  { rewrite <- E. apply trim_last. rewrite E. discriminate. }
  split; [exact (trim_head _ _ _ E)|]. split; [exact L|].
  split; intros H; rewrite H in L; discriminate.
Qed.

(* ====================================================================== *)
(** * The page: the evaluation table, the signal colour, the hex dump      *)
(* ====================================================================== *)

Import Display.

Section TableFacts.

Lemma sliceLast_split {A : Type} (n : nat) (l : list A) :
exists older, l = older ++ sliceLast n l /\ length (sliceLast n l) = Nat.min n (length l).
Proof.
exists (firstn (length l - n) l). unfold sliceLast. split.
- symmetry. apply firstn_skipn.
- rewrite length_skipn. lia.
Qed.

End TableFacts.

(** X13: [updateEvalTable] draws the newest rows only and always a
    rectangular table.  The body has min(20, n) rows for a history of n
    rows; they are the last rows of the history, in order; the header is
    that of the first row drawn and every row drawn has as many cells as the
    header, a row of the other kind being drawn with [undefined] in the
    cells it has no field for; with an empty history the body is empty and
    the header stays what it was. *)
Theorem updateEvalTable_shape (rows : list EvalRow) (table : EvalTable) :
  let table' := updateEvalTable rows table in
  length (tbody table') = Nat.min 20 (length rows)
  /\ (rows = [] -> table' = mkTable (thead table) [])
  /\ (rows <> [] ->
      exists head older shown first,
        rows = older ++ shown
        /\ hd_error shown = Some first
        /\ head = match first with
                  | FootRow _ _ _ _ _ _ => FootHead
                  | BackRow _ _ _ _ => BackHead
                  end
        /\ thead table' = Some head
        /\ tbody table' = map (match head with
                               | FootHead => footCells
                               | BackHead => backCells
                               end) shown
        /\ Forall (fun cells => length cells = headWidth head) (tbody table'))
  /\ (forall t a b c,
        footCells (BackRow t a b c)
        = [CellText t; CellUndefined; CellUndefined; CellUndefined; CellUndefined;
           CellNumber c]
        /\ forall d e,
             backCells (FootRow t a b c d e)
             = [CellText t; CellUndefined; CellUndefined; CellNumber e]).
Proof.
  intros table'. subst table'. unfold updateEvalTable.
  destruct (sliceLast_split 20 rows) as (older & E & L).
  destruct (sliceLast 20 rows) as [|first shown] eqn:S.
  - split; [exact L|]. split; [reflexivity|]. split; [|split; reflexivity].
    intros N. exfalso. cbn [length] in L.
    destruct rows; [tauto|]. cbn [length] in L. lia.
  - assert (N : rows <> []) by (intros ->; destruct older; discriminate).
    destruct first as [t a b c d e|t a b c].
    + cbn [tbody thead]. rewrite length_map.
      split; [exact L|]. split; [tauto|]. split; [|split; reflexivity].
      intros _. exists FootHead, older, (FootRow t a b c d e :: shown), (FootRow t a b c d e).
      repeat split; auto.
      apply Forall_forall. intros cells H. apply in_map_iff in H as [r [<- _]]. reflexivity.
    + cbn [tbody thead]. rewrite length_map.
      split; [exact L|]. split; [tauto|]. split; [|split; reflexivity].
      intros _. exists BackHead, older, (BackRow t a b c :: shown), (BackRow t a b c).
      repeat split; auto.
      apply Forall_forall. intros cells H. apply in_map_iff in H as [r [<- _]]. reflexivity.
Qed.

(** X14: the colour of a signal never gets worse as the signal gets
    stronger: green above -70, orange above -85 up to -70, red from -85
    down, and red as well for an rssi that is [NaN].  Of the other numbers
    [parseInt] can give, -0 and Infinity are green and -Infinity is red. *)
Theorem signalColor_monotone (a b : Z) :
  (a <= b -> colorRank (signalColor (Int a)) <= colorRank (signalColor (Int b)))
  /\ (signalColor (Int a) = Green <-> -70 < a)
  /\ (signalColor (Int a) = Orange <-> -85 < a <= -70)
  /\ (signalColor (Int a) = Red <-> a <= -85)
  /\ signalColor NaN = Red
  /\ signalColor NegZero = Green
  /\ signalColor (Infinity false) = Green
  /\ signalColor (Infinity true) = Red.
Proof.
  unfold signalColor, greater.
  destruct (Z.ltb_spec (-70) a); destruct (Z.ltb_spec (-85) a);
    destruct (Z.ltb_spec (-70) b); destruct (Z.ltb_spec (-85) b);
    cbn [colorRank];
    repeat split; intros; try discriminate; try reflexivity; lia.
Qed.

Section HexFacts.

Variable toUpperCase : jsstring -> jsstring.
Hypothesis toUpperCase_ascii :
  forall s, Forall isAscii s -> toUpperCase s = map asciiUpper s.








End HexFacts.



(* ====================================================================== *)
(** * From a scan line to the connect command                              *)
(* ====================================================================== *)

Section ScanConnectFacts.

Lemma updateDeviceStatus_scan_line (st : State) (m n r : jsstring) :
~ In 44 m -> ~ In 44 n -> ~ In 44 r ->
updateDeviceStatus (SCAN_FOUND ++ m ++ lit "," ++ n ++ lit "," ++ r) st
= setDeviceStatus (StatusScanFound n m)
    (setScanResults (addScanResult m (parseInt r) n (scanResults st)) st).
Proof.
intros Hm Hn Hr. unfold updateDeviceStatus.
set (line := SCAN_FOUND ++ m ++ lit "," ++ n ++ lit "," ++ r).
assert (S : startsWith SCAN_FOUND line = true) by apply startsWith_app.
rewrite (scanFound_not_bleRaw line S), S.
unfold substring, line. rewrite skipn_app, skipn_all, Nat.sub_diag.
cbn [skipn app lit]. change (Z.of_N (N_of_ascii ",")) with 44.
rewrite split_first by assumption. rewrite split_first by assumption.
rewrite split_no_sep by assumption. reflexivity.
Qed.

Lemma addScanResult_has_mac (m : jsstring) (v : jsnumber) (n : jsstring)
  (rs : list ScanRecord) :
In m (map mac (addScanResult m v n rs)).
Proof.
unfold addScanResult. destruct (find (hasMac m) rs) eqn:E.
- rewrite map_mac_assignRssi.
  destruct (in_dec (list_eq_dec Z.eq_dec) m (map mac rs)) as [H|H]; [exact H|].
  apply find_hasMac_None in H. congruence.
- rewrite map_app, in_app_iff. right. left. reflexivity.
Qed.

Lemma hex_no_comma (m : jsstring) : Forall isHexDigit m -> ~ In 44 m.
Proof.
intros F H. rewrite Forall_forall in F. specialize (F 44 H).
unfold isHexDigit in F. lia.
Qed.

End ScanConnectFacts.

(** X16: a device found by a scan can be connected from its record.  For
    every scan line [#DM:SCAN:FOUND:<mac>,<name>,<rssi>] whose mac is twelve
    characters of [0-9A-F] and whose name and rssi hold no comma, the
    registry holds a record with that mac after the line, whatever it held
    before, and [sendConnectDevice] on that mac gives the command
    [DM:CONN:<mac>:<location>] (for every [toUpperCase] that is the ASCII
    uppercase map on ASCII strings). *)
Theorem scanned_device_can_be_connected (toUpperCase : jsstring -> jsstring)
  (st : State) (m n r location : jsstring) :
  (forall s, Forall isAscii s -> toUpperCase s = map asciiUpper s) ->
  length m = 12%nat -> Forall isHexDigit m ->
  ~ In 44 n -> ~ In 44 r ->
  let st' := updateDeviceStatus (SCAN_FOUND ++ m ++ lit "," ++ n ++ lit "," ++ r) st in
  In m (map mac (scanResults st'))
  /\ sendConnectDevice toUpperCase m location
     = SendCommand (lit "DM:CONN:" ++ m ++ lit ":" ++ location).
Proof.
  intros Hup L F Hn Hr st'. subst st'. split.
  - rewrite updateDeviceStatus_scan_line by (assumption || now apply hex_no_comma).
    cbn [scanResults setDeviceStatus setScanResults]. apply addScanResult_has_mac.
  - pose proof (cleanMacOf_hex toUpperCase Hup m F) as E.
    destruct (sendConnectDevice_cases toUpperCase m location) as (_ & _ & H).
    rewrite H; [now rewrite E|]. unfold reducesToMac. now rewrite E.
Qed.

Lemma scanned_device_can_be_connected_witness :
  let st' := updateDeviceStatus (lit "#DM:SCAN:FOUND:AABBCCDDEEFF,Sensor1,-65")
               initialState in
  (forall s, Forall isAscii s -> map asciiUpper s = map asciiUpper s)
  /\ In (lit "AABBCCDDEEFF") (map mac (scanResults st'))
  /\ sendConnectDevice (map asciiUpper) (lit "AABBCCDDEEFF") (lit "L1")
     = SendCommand (lit "DM:CONN:AABBCCDDEEFF:L1").
Proof.
  cbv zeta. split; [reflexivity|].
  assert (F : Forall isHexDigit (lit "AABBCCDDEEFF"))
    by (repeat constructor; unfold isHexDigit; simpl; lia).
  assert (Hn : ~ In 44 (lit "Sensor1")) by (simpl; intuition discriminate).
  assert (Hr : ~ In 44 (lit "-65")) by (simpl; intuition discriminate).
  exact (scanned_device_can_be_connected (map asciiUpper) initialState
           (lit "AABBCCDDEEFF") (lit "Sensor1") (lit "-65") (lit "L1")
           (fun s _ => eq_refl) eq_refl F Hn Hr).
Defined.

(* ====================================================================== *)
(** * The terminator                                                       *)
(* ====================================================================== *)

Section TerminatorFacts.



End TerminatorFacts.


